(** * block_access: a time-window access policy for PostgreSQL logins

    A shallow embedding of [block_access.c] and the properties of its
    configuration parser and of its evaluator.

    Conventions of the embedding.
    - A C string is a [string]: the characters before the terminating NUL.
      A [char *] that may be NULL is an [option string].
    - [int] values are in [Z]; array sizes and indices are in [nat].
    - [elog(ERROR, ...)] leaves the function by a non-local exit: it is the
      [Elog] outcome, carrying which message was raised.  The DEBUG and INFO
      messages have no effect on control flow and are left out.
    - What C leaves undefined (dereferencing NULL, following a pointer that
      [palloc] left in memory nobody wrote, an [atoi] result that does not
      fit) is the [Fault] outcome: the program gives no verdict there.
    - [palloc] does not clear what it returns.  An array element the program
      never stored into is [Unset]; an [int] or a pointer read there is
      whatever the memory held, which the evaluation takes as a parameter
      ([leftover]). *)

From Stdlib Require Import ZArith List String Ascii Bool Arith Lia.
Import ListNotations.

Local Open Scope string_scope.
Local Open Scope list_scope.
Local Open Scope Z_scope.

(** ** The C library functions the module calls *)

Module Libc.

(** [isspace] in the C locale: the six characters the comment of [trim]
    lists. *)
Definition isspace (c : ascii) : bool :=
  (c =? " ")%char || (c =? "009")%char || (c =? "010")%char ||
  (c =? "011")%char || (c =? "012")%char || (c =? "013")%char.

Definition isdigit (c : ascii) : bool :=
  (48 <=? nat_of_ascii c)%nat && (nat_of_ascii c <=? 57)%nat.

Definition digit_val (c : ascii) : Z := Z.of_nat (nat_of_ascii c) - 48.

(** [strchr(set, c) != NULL] for a character [c] other than NUL. *)
Fixpoint mem (c : ascii) (set : string) : bool :=
  match set with
  | EmptyString => false
  | String d set' => (c =? d)%char || mem c set'
  end.

(** [strpbrk(s, accept)]: the first position of [s] holding a character of
    [accept].  A position inside [s] is the pair of what lies before it and
    what starts at it; [None] is the NULL result. *)
Fixpoint strpbrk (s accept : string) : option (string * string) :=
  match s with
  | EmptyString => None
  | String c s' =>
      if mem c accept then Some (EmptyString, s)
      else match strpbrk s' accept with
           | Some (before, at_p) => Some (String c before, at_p)
           | None => None
           end
  end.

(** [s + strspn(s, delim)]: skip the leading separators. *)
Fixpoint skip_delims (s delim : string) : string :=
  match s with
  | EmptyString => EmptyString
  | String c s' => if mem c delim then skip_delims s' delim else s
  end.

(** One [strtok] search starting at position [pos] (ISO C 7.24.5.8): skip
    separators; with nothing left there is no token; otherwise the token runs
    up to the next separator, which is overwritten by NUL, and the next search
    starts after it.  The result is the token and the saved position. *)
Definition strtok_r (pos delim : string) : option (string * string) :=
  match skip_delims pos delim with
  | EmptyString => None
  | String c s' =>
      match strpbrk (String c s') delim with
      | None => Some (String c s', EmptyString)
      | Some (tok, at_p) =>
          Some (tok, match at_p with
                     | EmptyString => EmptyString
                     | String _ after => after
                     end)
      end
  end.

Fixpoint strtok_iter (fuel : nat) (pos delim : string) : list string :=
  match fuel with
  | O => []
  | S fuel' =>
      match strtok_r pos delim with
      | None => []
      | Some (tok, pos') => tok :: strtok_iter fuel' pos' delim
      end
  end.

(** The tokens that [strtok(s, delim)] followed by [strtok(NULL, delim)],
    repeated, return before the first NULL.  Every token takes at least one
    character, so [length s] searches find them all and one more finds the
    end.  Between two searches of one string the module calls only [trim],
    [strcmp], [atoi] and [elog], none of which moves the saved position. *)
Definition strtok_tokens (s delim : string) : list string :=
  strtok_iter (S (String.length s)) s delim.

(** Value of the leading decimal digits of [s], continuing from [acc]. *)
Fixpoint digits (s : string) (acc : Z) : Z :=
  match s with
  | EmptyString => acc
  | String c s' => if isdigit c then digits s' (10 * acc + digit_val c) else acc
  end.

Fixpoint skip_space (s : string) : string :=
  match s with
  | EmptyString => EmptyString
  | String c s' => if isspace c then skip_space s' else s
  end.

Definition INT_MIN : Z := - 2 ^ 31.
Definition INT_MAX : Z := 2 ^ 31 - 1.

(** The integer [strtol(s, NULL, 10)] reads: white space, an optional sign,
    then the longest run of digits (zero when there is none). *)
Definition strtol10 (s : string) : Z :=
  match skip_space s with
  | EmptyString => 0
  | String c r =>
      if (c =? "-")%char then - digits r 0
      else if (c =? "+")%char then digits r 0
      else digits (String c r) 0
  end.

(** [atoi(s)]: the value read when an [int] can hold it; otherwise the
    behaviour is undefined (ISO C 7.22.1), which is [None]. *)
Definition atoi (s : string) : option Z :=
  let v := strtol10 s in
  if (INT_MIN <=? v) && (v <=? INT_MAX) then Some v else None.

(** Number of occurrences of [c] in [s]: the counting loops that walk a
    pointer through the string up to its NUL and add one at every [c]. *)
Fixpoint count_char (c : ascii) (s : string) : nat :=
  match s with
  | EmptyString => O
  | String d s' => ((if (d =? c)%char then 1 else 0) + count_char c s')%nat
  end.

End Libc.

Import Libc.

(** ** Outcomes *)

Inductive bound := Start | End.

(** The [elog(ERROR, ...)] calls of the module, one constructor per format
    string ([Start]/[End] choose between the two copies of the time code). *)
Inductive ba_error :=
| E_parse_week_day (s : string)
    (* "parse week day failed: %s" *)
| E_parse_time (b : bound) (s : string)
    (* "parse start time failed: %s", "parse end time failed: %s" *)
| E_parse_week_days (tok wd : string)
    (* "parse week days failed: \"%s\" -> %s" *)
| E_parse_hour (b : bound) (s : string)
    (* "parse start hour failed: %s", "parse end hour failed: %s" *)
| E_hour_range (b : bound) (h : Z)
    (* "parse start hour failed: out of range (%d)", and for the end *)
| E_parse_minute (b : bound) (s : string)
    (* "parse start minute failed: %s", "parse end minute failed: %s" *)
| E_minute_range (b : bound) (m : Z)
    (* "parse start minute failed: out of range (%d)", and for the end *)
| E_count_mismatch
    (* "number of intervals and exclude_roles elements do not match" *)
| E_access_denied.
    (* "access denied because it is outside permitted date and time" *)

Inductive fault :=
| NullDeref        (* a NULL pointer given to strlen, strcmp or pfree *)
| UninitRead       (* a pointer that palloc left in memory, followed *)
| IntOverflow      (* atoi of a number that does not fit in an int *)
| StrtokNoString   (* strtok(NULL, ..) with no string of ours being scanned *)
| OutOfBounds.     (* a store past the end of an array *)

Inductive result (A : Type) :=
| Ok (a : A)
| Elog (e : ba_error)
| Fault (f : fault).

Arguments Ok {A} a.
Arguments Elog {A} e.
Arguments Fault {A} f.

Definition bind {A B : Type} (r : result A) (k : A -> result B) : result B :=
  match r with
  | Ok a => k a
  | Elog e => Elog e
  | Fault f => Fault f
  end.

Notation "x <- r ;; k" := (bind r (fun x => k))
  (at level 61, r at next level, right associativity).

(** The error kinds of the specification, and the kind of each message. *)
Inductive error_kind :=
| GroupCountMismatch | MalformedInterval | UnknownWeekday
| MalformedTime | HourOutOfRange | MinuteOutOfRange | AccessDenied.

Definition kind_of (e : ba_error) : error_kind :=
  match e with
  | E_parse_week_day _ | E_parse_time _ _ => MalformedInterval
  | E_parse_week_days _ _ => UnknownWeekday
  | E_parse_hour _ _ | E_parse_minute _ _ => MalformedTime
  | E_hour_range _ _ => HourOutOfRange
  | E_minute_range _ _ => MinuteOutOfRange
  | E_count_mismatch => GroupCountMismatch
  | E_access_denied => AccessDenied
  end.

(** ** Data *)

(** An element of an array obtained from [palloc], which does not clear the
    memory: [Unset] until the program stores into it. *)
Inductive slot (A : Type) :=
| Unset
| Val (a : A).

Arguments Unset {A}.
Arguments Val {A} a.

Record BATime := { hour : Z; minute : Z }.

(** [wday] and [roles] are the arrays with their lengths: [nwday] is
    [length (wday r)] and [nroles] is [length (roles r)].  A role is a
    [char *]: [Val None] is a NULL stored by the parser. *)
Record BAIntervalRole := {
  wday : list (slot Z);
  start_time : BATime;
  end_time : BATime;
  roles : list (slot (option string))
}.

(** The fields of [struct tm] the module reads. *)
Record tm := { tm_wday : Z; tm_hour : Z; tm_min : Z }.

(** What [palloc] left in the elements that stay [Unset], for element [j] of
    the arrays of rule [i]: the [int] found in [wday[j]], and whether the
    pointer found in [roles[j]] is NULL. *)
Record leftover := {
  left_wday : nat -> nat -> Z;
  left_role_null : nat -> nat -> bool
}.

(** An element of a [palloc0]'ed array of rules. *)
Definition zeroed : BAIntervalRole :=
  {| wday := []; start_time := {| hour := 0; minute := 0 |};
     end_time := {| hour := 0; minute := 0 |}; roles := [] |}.

(** [a[i] = v] for an array of [length a] elements. *)
Fixpoint store {A : Type} (a : list A) (i : nat) (v : A) : result (list A) :=
  match a, i with
  | [], _ => Fault OutOfBounds
  | _ :: a', O => Ok (v :: a')
  | x :: a', S i' => a'' <- store a' i' v ;; Ok (x :: a'')
  end.

(** ** trim *)

(** The string from [end] backwards: drop the white space at the end. *)
Fixpoint rstrip (s : string) : string :=
  match s with
  | EmptyString => EmptyString
  | String c s' =>
      match rstrip s' with
      | EmptyString => if isspace c then EmptyString else String c EmptyString
      | r => String c r
      end
  end.

(** [trim]: [start] moves right over white space and stops at the latest on
    the NUL; [end] moves left from the last character over white space; the
    result is the copy of [start .. end], or NULL when [end < start], which
    is when [s] is empty or all white space.  (In that case the second loop
    also looks at the bytes before [s]; whatever they hold, [end] stays below
    [start] and the result is NULL.) *)
Definition trim (s : option string) : option string :=
  match s with
  | None => None
  | Some s =>
      match rstrip (skip_space s) with
      | EmptyString => None
      | t => Some t
      end
  end.

(** ** strtok_all *)

(** One call of [strtok_all(str, delims)] with the static variable [src]:
    the result is the returned pointer and the new [src]. *)
Definition strtok_all (str : option string) (delims : string)
    (src : option string) : option string * option string :=
  let src := match str with Some s => Some s | None => src end in
  match src with
  | None => (None, None)
  | Some s =>
      match strpbrk s delims with
      | Some (tok, String _ after) => (Some tok, Some after)
      | Some (tok, EmptyString) => (Some tok, Some EmptyString)
      | None =>
          match s with
          | String _ _ => (Some s, None)
          | EmptyString => (None, Some s)
          end
      end
  end.

(** The loop [ptr = strtok_all(str, d); while (ptr) { ...;
    ptr = strtok_all(NULL, d); }]: the tokens it sees, in order. *)
Fixpoint strtok_all_iter (fuel : nat) (ptr src : option string)
    (delims : string) : list string :=
  match fuel, ptr with
  | S fuel', Some tok =>
      let '(ptr', src') := strtok_all None delims src in
      tok :: strtok_all_iter fuel' ptr' src' delims
  | _, _ => []
  end.

(** [src] is NULL when the backend starts; the hook runs once in it. *)
Definition strtok_all_tokens (str : option string) (delims : string)
    : list string :=
  let '(ptr, src) := strtok_all str delims None in
  strtok_all_iter
    (S (match str with Some s => String.length s | None => O end))
    ptr src delims.

(** ** parse_interval *)

Definition weekday_of (item_wd : string) : option Z :=
  if (item_wd =? "sun")%string then Some 0
  else if (item_wd =? "mon")%string then Some 1
  else if (item_wd =? "tue")%string then Some 2
  else if (item_wd =? "wed")%string then Some 3
  else if (item_wd =? "thu")%string then Some 4
  else if (item_wd =? "fri")%string then Some 5
  else if (item_wd =? "sat")%string then Some 6
  else None.

(** The loop over the tokens of the week day list: [ptr] is the current
    token, [i] the next free element of [wday]. *)
Fixpoint parse_wdays (toks : list string) (weekday_str : string) (i : nat)
    (wday : list (slot Z)) : result (list (slot Z)) :=
  match toks with
  | [] => Ok wday
  | ptr :: toks' =>
      match trim (Some ptr) with
      | None => Fault NullDeref                  (* strcmp(NULL, "sun") *)
      | Some item_wd =>
          match weekday_of item_wd with
          | Some d =>
              wday' <- store wday i (Val d) ;;
              parse_wdays toks' weekday_str (S i) wday'
          | None => Elog (E_parse_week_days item_wd weekday_str)
          end
      end
  end.

Definition atoi_int (s : string) : result Z :=
  match atoi s with
  | Some v => Ok v
  | None => Fault IntOverflow
  end.

(** The code for the start time (source lines 229-250, [b = Start]) and its
    copy for the end time (lines 252-273, [b = End]). *)
Definition parse_time (b : bound) (time_str : string) : result BATime :=
  match strtok_tokens time_str ":" with
  | [] => Elog (E_parse_hour b time_str)
  | ptr :: rest =>
      h <- atoi_int ptr ;;
      if (h <? 0) || (h >? 23) then Elog (E_hour_range b h)
      else
        match rest with
        | [] => Elog (E_parse_minute b time_str)
        | ptr' :: _ =>
            m <- atoi_int ptr' ;;
            if (m <? 0) || (m >? 59) then Elog (E_minute_range b m)
            else Ok {| hour := h; minute := m |}
        end
  end.

(** [pstrdup(s)] starts with [strlen(s)]. *)
Definition pstrdup (s : option string) : result string :=
  match s with
  | Some s => Ok s
  | None => Fault NullDeref
  end.

Definition parse_interval (interval : BAIntervalRole) (s : option string)
    : result BAIntervalRole :=
  item <- pstrdup s ;;
  match strtok_tokens item "-" with
  | [] => Elog (E_parse_week_day item)
  | [_] => Elog (E_parse_time Start item)
  | [_; _] => Elog (E_parse_time End item)
  | p1 :: p2 :: p3 :: _ =>
      let weekday_str := trim (Some p1) in
      let start_time_str := trim (Some p2) in
      let end_time_str := trim (Some p3) in
      item <- pstrdup weekday_str ;;
      let nwday := S (count_char "," item) in
      wday <- parse_wdays (strtok_tokens item ",") item 0
                (repeat Unset nwday) ;;
      item <- pstrdup start_time_str ;;
      start_time <- parse_time Start item ;;
      item <- pstrdup end_time_str ;;
      end_time <- parse_time End item ;;
      Ok {| wday := wday; start_time := start_time; end_time := end_time;
            roles := roles interval |}
  end.

(** ** parse_roles *)

Fixpoint store_roles (toks : list string) (i : nat)
    (roles : list (slot (option string)))
    : result (list (slot (option string))) :=
  match toks with
  | [] => Ok roles
  | ptr :: toks' =>
      roles' <- store roles i (Val (trim (Some ptr))) ;;
      store_roles toks' (S i) roles'
  end.

Definition parse_roles (interval : BAIntervalRole) (s : option string)
    : result BAIntervalRole :=
  match s with
  | None =>
      Ok {| wday := wday interval; start_time := start_time interval;
            end_time := end_time interval; roles := [] |}
  | Some item =>
      let nroles := S (count_char "," item) in
      roles <- store_roles (strtok_tokens item ",") 0 (repeat Unset nroles) ;;
      Ok {| wday := wday interval; start_time := start_time interval;
            end_time := end_time interval; roles := roles |}
  end.

(** ** parse_options *)

(** [pfree(p)] looks for the header of the chunk in front of [p]. *)
Definition pfree (p : option string) : result unit :=
  match p with
  | Some _ => Ok tt
  | None => Fault NullDeref
  end.

(** [item[i++] = trim(ptr)] for every token, into the [palloc0]'ed array. *)
Fixpoint store_items (toks : list string) (i : nat)
    (item : list (option string)) : result (list (option string)) :=
  match toks with
  | [] => Ok item
  | ptr :: toks' =>
      item' <- store item i (trim (Some ptr)) ;;
      store_items toks' (S i) item'
  end.

(** [for (i = 0; i < n; i++) parse(&ir[i], item[i])], both arrays holding
    [n] elements. *)
Fixpoint parse_each
    (parse : BAIntervalRole -> option string -> result BAIntervalRole)
    (ir : list BAIntervalRole) (item : list (option string))
    : result (list BAIntervalRole) :=
  match ir, item with
  | r :: ir', s :: item' =>
      r' <- parse r s ;;
      ir'' <- parse_each parse ir' item' ;;
      Ok (r' :: ir'')
  | _, _ => Ok []
  end.

(** The group array of the interval string: the tokens of [strtok]. *)
Definition interval_items (interval_time : option string) (n : nat)
    : result (list (option string)) :=
  match trim interval_time with
  | None => Fault StrtokNoString        (* strtok(NULL, ";") as first call *)
  | Some intervals_str =>
      store_items (strtok_tokens intervals_str ";") 0 (repeat None n)
  end.

(** The group array of the role string: the tokens of [strtok_all]. *)
Definition role_items (exclude_roles : option string) (n : nat)
    : result (list (option string)) :=
  store_items (strtok_all_tokens (trim exclude_roles) ";") 0 (repeat None n).

Definition parse_options (interval_time exclude_roles : option string)
    (ir : list BAIntervalRole) (n : nat) : result (list BAIntervalRole) :=
  match interval_time with
  | None => Ok ir                       (* no intervals, no access block *)
  | Some _ =>
      item <- interval_items interval_time n ;;
      ir <- parse_each parse_interval ir item ;;
      item <- role_items exclude_roles n ;;
      ir <- parse_each parse_roles ir item ;;
      _ <- pfree (trim interval_time) ;;          (* pfree(intervals_str) *)
      _ <- pfree (trim exclude_roles) ;;          (* pfree(roles_str) *)
      Ok ir
  end.

(** ** block_access_checks *)

(** Time in minutes.  The fields come from [parse_interval], which keeps
    them within 0 .. 23 and 0 .. 59, or from [palloc0]: the [int] arithmetic
    of the source is exact on them. *)
Definition minutes (t : BATime) : Z := hour t * 60 + minute t.

Definition now_minutes (now : tm) : Z := tm_hour now * 60 + tm_min now.

(** [n1 < s1 || n1 > s2] *)
Definition outside (r : BAIntervalRole) (now : tm) : bool :=
  (now_minutes now <? minutes (start_time r)) ||
  (now_minutes now >? minutes (end_time r)).

(** [wday[j]] as the loop reads it: the stored day, or in an element
    nobody stored into the [int] that was there, [old j]. *)
Definition read_wday (old : nat -> Z) (j : nat) (s : slot Z) : Z :=
  match s with
  | Val w => w
  | Unset => old j
  end.

(** The loop over [j], from element [j] on: the index of the first element
    of [wday] that compares equal to [tm_wday], if there is one. *)
Fixpoint find_wday (old : nat -> Z) (ws : list (slot Z)) (wd : Z) (j : nat)
    : option nat :=
  match ws with
  | [] => None
  | s :: ws' =>
      if read_wday old j s =? wd then Some j
      else find_wday old ws' wd (S j)
  end.

(** The loop over [k]: [found]. *)
Fixpoint find_role (rs : list (slot (option string))) (user_name : string)
    : result bool :=
  match rs with
  | [] => Ok false
  | Unset :: _ => Fault UninitRead     (* strcmp of what palloc left there *)
  | Val None :: _ => Fault NullDeref              (* strcmp(NULL, user_name) *)
  | Val (Some role) :: rs' =>
      if (role =? user_name)%string then Ok true else find_role rs' user_name
  end.

(** The body of [if (intervals[i].wday[j] == now->tm_wday)] up to the
    assignment of [bailout]. *)
Definition check_window (r : BAIntervalRole) (user_name : string) (now : tm)
    : result unit :=
  if outside r now then
    found <- find_role (roles r) user_name ;;
    if found then Ok tt else Elog E_access_denied
  else Ok tt.

(** The loop that frees the roles, from element [j] on: every element is
    tested and what is not NULL is given to [pfree].  In an element nobody
    stored into the pointer is the one that was there, NULL when
    [left_null j]. *)
Fixpoint free_roles (left_null : nat -> bool)
    (rs : list (slot (option string))) (j : nat) : result unit :=
  match rs with
  | [] => Ok tt
  | Unset :: rs' =>
      if left_null j then free_roles left_null rs' (S j)
      else Fault UninitRead                 (* pfree of what palloc left *)
  | Val _ :: rs' => free_roles left_null rs' (S j)
  end.

(** The loop over [i], from rule [i] on, with the flag [bailout].  Beside the
    outcome it gives the pairs [(i, j)] for which the week day test
    succeeded, in the order in which that happened. *)
Fixpoint scan_intervals (old : leftover) (intervals : list BAIntervalRole)
    (i : nat) (bailout : bool) (user_name : string) (now : tm)
    : list (nat * nat) * result unit :=
  match intervals with
  | [] => ([], Ok tt)
  | r :: rest =>
      if bailout then ([], Ok tt)
      else
        match find_wday (left_wday old i) (wday r) (tm_wday now) 0 with
        | None =>
            match free_roles (left_role_null old i) (roles r) 0 with
            | Ok _ => scan_intervals old rest (S i) false user_name now
            | Elog e => ([], Elog e)
            | Fault f => ([], Fault f)
            end
        | Some j =>
            match check_window r user_name now with
            | Ok _ =>
                match free_roles (left_role_null old i) (roles r) 0 with
                | Ok _ =>
                    let '(seen, out) :=
                      scan_intervals old rest (S i) true user_name now in
                    ((i, j) :: seen, out)
                | Elog e => ([(i, j)], Elog e)
                | Fault f => ([(i, j)], Fault f)
                end
            | Elog e => ([(i, j)], Elog e)
            | Fault f => ([(i, j)], Fault f)
            end
        end
  end.

Section Hook.

(** [STATUS_OK] is a constant of the server's headers; the hook only
    compares [status] with it. *)
Variable STATUS_OK : Z.

(** What the memory of the backend holds where the parser does not store. *)
Variable old : leftover.

(** The hook, after the hooks installed before it returned: [Ok tt] is a
    normal return (the connection goes on), [Elog E_access_denied] the
    refusal. *)
Definition block_access_checks (status : Z)
    (interval_time exclude_roles : option string)
    (user_name : string) (now : tm) : result unit :=
  match interval_time with
  | Some it =>
      if status =? STATUS_OK then
        let nintervals := S (count_char ";" it) in
        match exclude_roles with
        | None => Fault NullDeref
        | Some er =>
            let nroles := S (count_char ";" er) in
            if negb (nintervals =? nroles)%nat then Elog E_count_mismatch
            else
              intervals <- parse_options interval_time exclude_roles
                             (repeat zeroed nintervals) nintervals ;;
              snd (scan_intervals old intervals 0 false user_name now)
        end
      else Ok tt
  | None => Ok tt
  end.

End Hook.

(** ** Vocabulary of the statements *)

(** The two verdicts of the hook. *)
Definition Allow : result unit := Ok tt.
Definition Deny : result unit := Elog E_access_denied.

(** The verdict of the evaluation loop on an array of rules. *)
Definition verdict (old : leftover) (intervals : list BAIntervalRole)
    (user_name : string) (now : tm) : result unit :=
  snd (scan_intervals old intervals 0 false user_name now).

(** The pairs (rule, week day entry) on which the evaluation loop ran the
    body of its week day test. *)
Definition evaluated (old : leftover) (intervals : list BAIntervalRole)
    (user_name : string) (now : tm) : list (nat * nat) :=
  fst (scan_intervals old intervals 0 false user_name now).

Definition written {A : Type} (s : slot A) : Prop := s <> Unset.

(** Rule [r] lists week day [wd]. *)
Definition lists (r : BAIntervalRole) (wd : Z) : Prop := In (Val wd) (wday r).

(** Every element of both arrays of [r] has been stored into. *)
Definition initialised (r : BAIntervalRole) : Prop :=
  Forall written (wday r) /\ Forall written (roles r).

(** The element is a role name (neither unset nor NULL). *)
Definition is_name (s : slot (option string)) : Prop :=
  exists name, s = Val (Some name).

(** [user_name] is, character for character, an entry of the roles of [r]. *)
Definition excludes (r : BAIntervalRole) (user_name : string) : Prop :=
  In (Val (Some user_name)) (roles r).

(** Element [j] of the week day array of rule [i] compares equal to [wd]
    when the loop reads it. *)
Definition reads_day (old : leftover) (intervals : list BAIntervalRole)
    (i j : nat) (wd : Z) : Prop :=
  exists r s,
    nth_error intervals i = Some r /\ nth_error (wday r) j = Some s /\
    read_wday (left_wday old i) j s = wd.

(** The order of the two loops on the pairs (rule, week day entry): rule
    order, then entry order. *)
Definition earlier (p q : nat * nat) : Prop :=
  (fst p < fst q)%nat \/ (fst p = fst q /\ (snd p < snd q)%nat).

(** [p] is the first pair, in that order, whose entry compares equal to
    [wd]. *)
Definition first_pair (old : leftover) (intervals : list BAIntervalRole)
    (wd : Z) (p : nat * nat) : Prop :=
  reads_day old intervals (fst p) (snd p) wd /\
  forall q, earlier q p -> ~ reads_day old intervals (fst q) (snd q) wd.

(** The loops that free the roles of the rules before rule [i] end without
    a fault. *)
Definition frees_before (old : leftover) (intervals : list BAIntervalRole)
    (i : nat) : Prop :=
  forall i' r,
    (i' < i)%nat -> nth_error intervals i' = Some r ->
    free_roles (left_role_null old i') (roles r) 0 = Ok tt.

(** [r] is the first rule of [pre ++ r :: post] that lists [wd], in a part of
    the array that the parser filled completely. *)
Definition first_listing (pre : list BAIntervalRole) (r : BAIntervalRole)
    (wd : Z) : Prop :=
  Forall initialised pre /\
  Forall (fun r' => ~ lists r' wd) pre /\
  initialised r /\ lists r wd.

(** ** The split of the specification *)

(** Following the words of the specification: the split on the characters of
    [delims] that returns every group in order, the empty ones included;
    adjacent delimiters are not collapsed and a delimiter at the end is
    followed by an empty last group. *)
Fixpoint split_all (delims s : string) : list string :=
  match s with
  | EmptyString => [EmptyString]
  | String c s' =>
      if mem c delims then EmptyString :: split_all delims s'
      else match split_all delims s' with
           | g :: gs => String c g :: gs
           | [] => [String c EmptyString]
           end
  end.

(** The number of groups of a configuration string. *)
Definition group_count (s : string) : nat := List.length (split_all ";" s).

Definition nonempty (s : string) : bool :=
  match s with
  | EmptyString => false
  | String _ _ => true
  end.

(** The list without its last element when that element is the empty
    string. *)
Fixpoint drop_last_empty (l : list string) : list string :=
  match l with
  | [] => []
  | x :: l' =>
      match l', x with
      | [], EmptyString => []
      | _, _ => x :: drop_last_empty l'
      end
  end.

(** [l] in an array of [n] elements that was cleared before. *)
Definition pad {A : Type} (n : nat) (l : list (option A)) : list (option A) :=
  l ++ repeat None (n - List.length l).

(** [trim] of a string that is there. *)
Definition trimmed (s : string) : option string := trim (Some s).

(** [f] on the first, on the last element of a list. *)
Definition map_first {A : Type} (f : A -> A) (l : list A) : list A :=
  match l with
  | [] => []
  | x :: l' => f x :: l'
  end.

Fixpoint map_last {A : Type} (f : A -> A) (l : list A) : list A :=
  match l with
  | [] => []
  | x :: l' =>
      match l' with
      | [] => [f x]
      | _ :: _ => x :: map_last f l'
      end
  end.

(** The range checks of [parse_interval], as the conditions to go on. *)
Definition hour_ok (h : Z) : bool := negb ((h <? 0) || (h >? 23)).
Definition minute_ok (m : Z) : bool := negb ((m <? 0) || (m >? 59)).

(** The outcome is an error of kind [k]. *)
Definition fails_with {A : Type} (r : result A) (k : error_kind) : Prop :=
  exists e, r = Elog e /\ kind_of e = k.

(** The outcome is not a store past the end of an array. *)
Definition in_bounds {A : Type} (r : result A) : Prop :=
  r <> Fault OutOfBounds.

(** Every character of the string is a decimal digit. *)
Fixpoint all_digits (s : string) : bool :=
  match s with
  | EmptyString => true
  | String c s' => isdigit c && all_digits s'
  end.

(** ** Sample data *)

Definition at_time (d h m : Z) : tm :=
  {| tm_wday := d; tm_hour := h; tm_min := m |}.

Definition sunday (h m : Z) : tm := at_time 0 h m.
Definition saturday (h m : Z) : tm := at_time 6 h m.
Definition monday (h m : Z) : tm := at_time 1 h m.
Definition tuesday (h m : Z) : tm := at_time 2 h m.

(** Memory that held zeros before [palloc] returned it, and memory that
    held other bytes. *)
Definition cleared : leftover :=
  {| left_wday := fun _ _ => 0; left_role_null := fun _ _ => true |}.

Definition dirty : leftover :=
  {| left_wday := fun _ _ => 7; left_role_null := fun _ _ => false |}.

(** A rule as the parser builds it from well-formed groups. *)
Definition rule (days : list Z) (h1 m1 h2 m2 : Z) (names : list string)
    : BAIntervalRole :=
  {| wday := map Val days;
     start_time := {| hour := h1; minute := m1 |};
     end_time := {| hour := h2; minute := m2 |};
     roles := map (fun name => Val (Some name)) names |}.

(** ** More vocabulary *)

(** Every character of the string is white space (the empty string too). *)
Fixpoint all_space (s : string) : bool :=
  match s with
  | EmptyString => true
  | String c s' => isspace c && all_space s'
  end.

Definition first_char (s : string) : option ascii :=
  match s with
  | EmptyString => None
  | String c _ => Some c
  end.

Fixpoint last_char (s : string) : option ascii :=
  match s with
  | EmptyString => None
  | String c s' =>
      match last_char s' with
      | None => Some c
      | Some d => Some d
      end
  end.

(** The token is, once trimmed, the name of week day [d]. *)
Definition names_day (tok : string) (d : Z) : Prop :=
  exists item_wd, trimmed tok = Some item_wd /\ weekday_of item_wd = Some d.

(** An element of [wday] is unset or holds a day number, 0 .. 6. *)
Definition day_slot (s : slot Z) : Prop :=
  s = Unset \/ exists d, s = Val d /\ 0 <= d <= 6.

Definition time_in_range (t : BATime) : Prop :=
  0 <= hour t <= 23 /\ 0 <= minute t <= 59.

(** The array [week_day_names] of [parse_interval] and of the hook, which
    the debug messages index with a stored day. *)
Definition week_day_names : list string :=
  ["sun"; "mon"; "tue"; "wed"; "thu"; "fri"; "sat"].

(** * Properties *)

(** ** Tokens *)

Section Tokens.

Variable delims : string.

Lemma split_all_not_nil s : split_all delims s <> [].
Proof.
  destruct s as [|c s]; simpl; [discriminate|].
  destruct (mem c delims); [discriminate|].
  destruct (split_all delims s); discriminate.
Qed.

Lemma strpbrk_some s tok at_p :
  strpbrk s delims = Some (tok, at_p) ->
  exists x after,
    at_p = String x after /\ mem x delims = true /\
    split_all delims s = tok :: split_all delims after /\
    (String.length after < String.length s)%nat /\
    (String.length tok + String.length at_p = String.length s)%nat.
Proof.
  revert tok at_p; induction s as [|c s IH]; intros tok at_p H; simpl in H.
  - discriminate.
  - destruct (mem c delims) eqn:Hc.
    + inversion H; subst. exists c, s. simpl. rewrite Hc.
      repeat split; lia.
    + destruct (strpbrk s delims) as [[before p]|] eqn:Hs; [|discriminate].
      inversion H; subst.
      destruct (IH _ _ eq_refl) as (x & after & -> & Hx & Hsplit & Hlen & Hsum).
      exists x, after. simpl. rewrite Hc, Hsplit.
      simpl in Hsum. repeat split; try assumption; lia.
Qed.

Lemma strpbrk_none s : strpbrk s delims = None -> split_all delims s = [s].
Proof.
  induction s as [|c s IH]; intros H; simpl in *.
  - reflexivity.
  - destruct (mem c delims); [discriminate|].
    destruct (strpbrk s delims) as [[before p]|]; [discriminate|].
    now rewrite IH.
Qed.

Lemma skip_delims_split s :
  filter nonempty (split_all delims (skip_delims s delims)) =
  filter nonempty (split_all delims s).
Proof.
  induction s as [|c s IH]; simpl.
  - reflexivity.
  - destruct (mem c delims) eqn:Hc; simpl.
    + exact IH.
    + now rewrite Hc.
Qed.

Lemma skip_delims_length s :
  (String.length (skip_delims s delims) <= String.length s)%nat.
Proof.
  induction s as [|c s IH]; simpl; [lia|].
  destruct (mem c delims); simpl; lia.
Qed.

Lemma skip_delims_head s c s' :
  skip_delims s delims = String c s' -> mem c delims = false.
Proof.
  induction s as [|d s IH]; simpl; [discriminate|].
  destruct (mem d delims) eqn:Hd; [exact IH|].
  intros H; inversion H; now subst.
Qed.

(** The tokens of [strtok] are the non-empty groups. *)
Lemma strtok_iter_groups fuel s :
  (String.length s < fuel)%nat ->
  strtok_iter fuel s delims = filter nonempty (split_all delims s).
Proof.
  revert s; induction fuel as [|fuel IH]; intros s Hlen; [lia|].
  rewrite <- skip_delims_split. simpl. unfold strtok_r.
  pose proof (skip_delims_length s) as Hskip.
  destruct (skip_delims s delims) as [|c s'] eqn:Hs; [reflexivity|].
  pose proof (skip_delims_head _ _ _ Hs) as Hc.
  destruct (strpbrk (String c s') delims) as [[tok at_p]|] eqn:Hp.
  - destruct (strpbrk_some _ _ _ Hp) as (x & after & -> & _ & -> & Hl & _).
    assert (Htok : nonempty tok = true).
    { simpl in Hp. rewrite Hc in Hp.
      destruct (strpbrk s' delims) as [[? ?]|]; [|discriminate].
      now inversion Hp. }
    simpl. rewrite Htok. f_equal. apply IH. lia.
  - rewrite (strpbrk_none _ Hp). simpl. f_equal.
    destruct fuel; reflexivity.
Qed.

Lemma strtok_tokens_groups s :
  strtok_tokens s delims = filter nonempty (split_all delims s).
Proof. apply strtok_iter_groups. lia. Qed.

Lemma strtok_tokens_length s :
  (List.length (strtok_tokens s delims) <=
   List.length (split_all delims s))%nat.
Proof. rewrite strtok_tokens_groups. apply filter_length_le. Qed.

(** The tokens of [strtok_all] are the groups, but for an empty last one. *)
Lemma strtok_all_iter_groups fuel s :
  (String.length s < fuel)%nat ->
  (let '(ptr, src) := strtok_all (Some s) delims None in
   strtok_all_iter fuel ptr src delims) =
  drop_last_empty (split_all delims s).
Proof.
  revert s; induction fuel as [|fuel IH]; intros s Hlen; [lia|].
  unfold strtok_all.
  destruct (strpbrk s delims) as [[tok at_p]|] eqn:Hp.
  - destruct (strpbrk_some _ _ _ Hp) as (x & after & -> & _ & -> & Hl & _).
    pose proof (IH after ltac:(lia)) as IHafter.
    cbn [strtok_all_iter].
    change (strtok_all None delims (Some after))
      with (strtok_all (Some after) delims None).
    destruct (strtok_all (Some after) delims None) as [ptr' src'].
    rewrite IHafter.
    pose proof (split_all_not_nil after) as Hne.
    simpl. destruct (split_all delims after); [now elim Hne|reflexivity].
  - rewrite (strpbrk_none _ Hp).
    destruct s as [|c s]; [reflexivity|].
    cbn [strtok_all_iter]. simpl. destruct fuel; reflexivity.
Qed.

Lemma strtok_all_tokens_groups s :
  strtok_all_tokens (Some s) delims = drop_last_empty (split_all delims s).
Proof.
  unfold strtok_all_tokens.
  pose proof (strtok_all_iter_groups (S (String.length s)) s) as H.
  destruct (strtok_all (Some s) delims None) as [ptr src].
  apply H. lia.
Qed.

End Tokens.

Lemma split_all_count d s :
  List.length (split_all (String d EmptyString) s) = S (count_char d s).
Proof.
  induction s as [|c s IH]; simpl; [reflexivity|].
  rewrite orb_false_r.
  destruct (Ascii.eqb c d); simpl.
  - now rewrite IH.
  - destruct (split_all (String d EmptyString) s); simpl in *; lia.
Qed.

Lemma group_count_semicolons s : group_count s = S (count_char ";" s).
Proof. apply split_all_count. Qed.

(** ** The arrays the parser fills *)

Lemma store_at {A : Type} (pre : list A) x rest v :
  store (pre ++ x :: rest) (List.length pre) v = Ok (pre ++ v :: rest).
Proof.
  induction pre as [|y pre IH]; simpl; [reflexivity|].
  now rewrite IH.
Qed.

Section Fill.

Context {A B : Type} (f : B -> A) (blank : A).
Variable loop : list B -> nat -> list A -> result (list A).
Hypothesis loop_nil : forall i a, loop [] i a = Ok a.
Hypothesis loop_cons : forall x xs i a,
  loop (x :: xs) i a = (a' <- store a i (f x) ;; loop xs (S i) a').

(** A loop that stores [f] of each value into the next element fills the
    array from the front and never leaves it. *)
Lemma loop_fill xs pre k :
  (List.length xs <= k)%nat ->
  loop xs (List.length pre) (pre ++ repeat blank k) =
  Ok (pre ++ map f xs ++ repeat blank (k - List.length xs)).
Proof.
  revert pre k; induction xs as [|x xs IH]; intros pre k Hk.
  - rewrite loop_nil. simpl. now rewrite Nat.sub_0_r.
  - destruct k as [|k]; [simpl in Hk; lia|].
    rewrite loop_cons. simpl repeat. rewrite store_at. simpl bind.
    replace (S (List.length pre)) with (List.length (pre ++ [f x]))
      by (rewrite length_app; simpl; lia).
    replace (pre ++ f x :: repeat blank k)
      with ((pre ++ [f x]) ++ repeat blank k)
      by (now rewrite <- app_assoc).
    rewrite IH by (simpl in Hk; lia).
    now rewrite <- app_assoc.
Qed.

End Fill.

Lemma store_items_fill toks n :
  (List.length toks <= n)%nat ->
  store_items toks 0 (repeat None n) = Ok (pad n (map trimmed toks)).
Proof.
  intros H. unfold pad. rewrite length_map.
  apply (loop_fill trimmed None store_items) with (pre := []);
    [reflexivity|reflexivity|exact H].
Qed.

Lemma store_roles_fill toks n :
  (List.length toks <= n)%nat ->
  store_roles toks 0 (repeat Unset n) =
  Ok (map (fun p => Val (trimmed p)) toks ++
      repeat Unset (n - List.length toks)).
Proof.
  intros H.
  apply (loop_fill (fun p => Val (trimmed p)) Unset store_roles)
    with (pre := []); [reflexivity|reflexivity|exact H].
Qed.

(** ** Trimming and splitting *)

Lemma skip_space_idem s : skip_space (skip_space s) = skip_space s.
Proof.
  induction s as [|c s IH]; simpl; [reflexivity|].
  destruct (isspace c) eqn:Hc; [exact IH|].
  simpl. now rewrite Hc.
Qed.

Lemma rstrip_idem s : rstrip (rstrip s) = rstrip s.
Proof.
  induction s as [|c s IH]; simpl; [reflexivity|].
  destruct (rstrip s) as [|a r] eqn:Hr.
  - destruct (isspace c) eqn:Hc; simpl; [reflexivity|now rewrite Hc].
  - change (rstrip (String c (String a r))) with
      (match rstrip (String a r) with
       | EmptyString => if isspace c then EmptyString else String c EmptyString
       | String _ _ as r' => String c r'
       end).
    now rewrite IH.
Qed.

Lemma skip_space_rstrip s : skip_space (rstrip s) = rstrip (skip_space s).
Proof.
  induction s as [|c s IH]; simpl; [reflexivity|].
  destruct (isspace c) eqn:Hc.
  - rewrite <- IH. destruct (rstrip s); simpl; [reflexivity|now rewrite Hc].
  - simpl. destruct (rstrip s); simpl; now rewrite Hc.
Qed.

Lemma trimmed_skip_space s : trimmed (skip_space s) = trimmed s.
Proof. unfold trimmed, trim. now rewrite skip_space_idem. Qed.

Lemma trimmed_rstrip s : trimmed (rstrip s) = trimmed s.
Proof.
  unfold trimmed, trim. now rewrite <- !skip_space_rstrip, rstrip_idem.
Qed.

Lemma map_trimmed_first l :
  map trimmed (map_first skip_space l) = map trimmed l.
Proof. destruct l; simpl; [reflexivity|now rewrite trimmed_skip_space]. Qed.

Lemma map_trimmed_last l :
  map trimmed (map_last rstrip l) = map trimmed l.
Proof.
  induction l as [|x l IH]; [reflexivity|].
  destruct l as [|y l].
  - simpl. now rewrite trimmed_rstrip.
  - change (map_last rstrip (x :: y :: l)) with (x :: map_last rstrip (y :: l)).
    rewrite !(map_cons trimmed x), IH. reflexivity.
Qed.

Section TrimSplit.

Variable delims : string.
Hypothesis delims_not_space :
  forall c, isspace c = true -> mem c delims = false.

Lemma split_all_single s g : split_all delims s = [g] -> g = s.
Proof.
  revert g; induction s as [|c s IH]; intros g H; simpl in H.
  - now inversion H.
  - destruct (mem c delims).
    + inversion H as [[Hg Hs]]. now elim (split_all_not_nil delims s).
    + destruct (split_all delims s) as [|g' gs] eqn:Hs; inversion H; subst.
      * now elim (split_all_not_nil delims s).
      * now rewrite (IH g' eq_refl).
Qed.

Lemma split_all_skip_space s :
  split_all delims (skip_space s) = map_first skip_space (split_all delims s).
Proof.
  induction s as [|c s IH]; [reflexivity|].
  simpl skip_space. destruct (isspace c) eqn:Hc.
  - rewrite IH. simpl split_all. rewrite (delims_not_space _ Hc).
    destruct (split_all delims s) as [|g gs] eqn:Hs.
    + now elim (split_all_not_nil delims s).
    + simpl. now rewrite Hc.
  - simpl split_all. destruct (mem c delims); [reflexivity|].
    destruct (split_all delims s); simpl; now rewrite Hc.
Qed.

Lemma rstrip_empty_split s :
  rstrip s = EmptyString -> split_all delims s = [s].
Proof.
  induction s as [|c s IH]; [reflexivity|].
  simpl. destruct (rstrip s) eqn:Hr; [|discriminate].
  destruct (isspace c) eqn:Hc; [|discriminate].
  intros _. now rewrite (delims_not_space _ Hc), IH.
Qed.

Lemma split_all_cons c s :
  split_all delims (String c s) =
  if mem c delims then EmptyString :: split_all delims s
  else match split_all delims s with
       | g :: gs => String c g :: gs
       | [] => [String c EmptyString]
       end.
Proof. reflexivity. Qed.

Lemma split_all_rstrip s :
  split_all delims (rstrip s) = map_last rstrip (split_all delims s).
Proof.
  induction s as [|c s IH]; [reflexivity|].
  simpl rstrip. destruct (rstrip s) as [|a r] eqn:Hr.
  - (* only white space follows [c] *)
    pose proof (rstrip_empty_split s Hr) as Hs.
    simpl split_all at 2. rewrite Hs.
    destruct (isspace c) eqn:Hc.
    + rewrite (delims_not_space _ Hc). simpl. now rewrite Hr, Hc.
    + simpl split_all. destruct (mem c delims); simpl; now rewrite Hr, ?Hc.
  - rewrite (split_all_cons c (String a r)), (split_all_cons c s), IH.
    destruct (mem c delims).
    + destruct (split_all delims s) as [|g gs] eqn:Hs;
        [now elim (split_all_not_nil delims s)|reflexivity].
    + destruct (split_all delims s) as [|g [|g2 gs]] eqn:Hs.
      * now elim (split_all_not_nil delims s).
      * rewrite (split_all_single _ _ Hs). simpl. now rewrite Hr.
      * reflexivity.
Qed.

(** Trimming the whole string before the split changes no trimmed group. *)
Lemma split_all_trimmed s :
  map trimmed (split_all delims (rstrip (skip_space s))) =
  map trimmed (split_all delims s).
Proof.
  now rewrite split_all_rstrip, map_trimmed_last,
    split_all_skip_space, map_trimmed_first.
Qed.

End TrimSplit.

Lemma drop_last_empty_length l :
  (List.length (drop_last_empty l) <= List.length l)%nat.
Proof.
  induction l as [|x l IH]; simpl; [lia|].
  destruct l as [|y l]; [destruct x; simpl; lia|].
  simpl in *; lia.
Qed.

(** An empty last group that [strtok_all] does not return is the NULL that
    [palloc0] left in the array. *)
Lemma pad_drop_last_empty l :
  pad (List.length l) (map trimmed (drop_last_empty l)) = map trimmed l.
Proof.
  unfold pad. rewrite length_map.
  induction l as [|x l IH]; [reflexivity|].
  destruct l as [|y l].
  - destruct x; reflexivity.
  - change (drop_last_empty (x :: y :: l))
      with (x :: drop_last_empty (y :: l)).
    simpl map. simpl List.length. simpl Nat.sub.
    simpl app. f_equal. exact IH.
Qed.

Lemma semicolon_not_space c : isspace c = true -> mem c ";" = false.
Proof.
  unfold isspace. simpl. rewrite orb_false_r.
  destruct (Ascii.eqb_spec c ";"%char) as [->|]; [discriminate|reflexivity].
Qed.

Lemma comma_not_space c : isspace c = true -> mem c "," = false.
Proof.
  unfold isspace. simpl. rewrite orb_false_r.
  destruct (Ascii.eqb_spec c ","%char) as [->|]; [discriminate|reflexivity].
Qed.

(** The group array of the role string holds every group. *)
Lemma role_items_all exclude_roles :
  role_items (Some exclude_roles) (group_count exclude_roles) =
  Ok (map trimmed (split_all ";" exclude_roles)).
Proof.
  unfold role_items, group_count.
  rewrite <- (split_all_trimmed ";" semicolon_not_space exclude_roles).
  replace (List.length (split_all ";" exclude_roles))
    with (List.length (split_all ";" (rstrip (skip_space exclude_roles)))).
  2:{ rewrite <- (length_map trimmed),
        (split_all_trimmed ";" semicolon_not_space).
      now rewrite length_map. }
  unfold trim.
  destruct (rstrip (skip_space exclude_roles)) as [|c t] eqn:Ht.
  - reflexivity.
  - rewrite strtok_all_tokens_groups.
    rewrite store_items_fill by apply drop_last_empty_length.
    now rewrite pad_drop_last_empty.
Qed.

(** The group array of the interval string holds the non-empty groups of the
    trimmed string, moved to the front. *)
Lemma interval_items_nonempty interval_time t :
  trim (Some interval_time) = Some t ->
  interval_items (Some interval_time) (group_count interval_time) =
  Ok (pad (group_count interval_time)
          (map trimmed (filter nonempty (split_all ";" t)))).
Proof.
  intros Ht. unfold interval_items. rewrite Ht.
  rewrite strtok_tokens_groups.
  apply store_items_fill.
  etransitivity; [apply filter_length_le|].
  unfold group_count.
  rewrite <- (length_map trimmed (split_all ";" interval_time)).
  rewrite <- (split_all_trimmed ";" semicolon_not_space interval_time).
  rewrite length_map.
  unfold trim in Ht.
  destruct (rstrip (skip_space interval_time)); [discriminate|].
  inversion Ht; subst. lia.
Qed.

(** ** The evaluation loop *)

Section Evaluator.

Variable old : leftover.
Variable user_name : string.
Variable now : tm.

Lemma find_wday_absent l ws j :
  Forall written ws -> ~ In (Val (tm_wday now)) ws ->
  find_wday l ws (tm_wday now) j = None.
Proof.
  revert j; induction ws as [|[|w] ws IH]; intros j Hw Hn; simpl.
  - reflexivity.
  - inversion Hw as [|? ? Hu _]; subst. now elim Hu.
  - destruct (Z.eqb_spec w (tm_wday now)) as [->|_].
    + elim Hn; now left.
    + apply IH.
      * now inversion Hw.
      * intros Hin; apply Hn; now right.
Qed.

Lemma find_wday_present l ws j :
  Forall written ws -> In (Val (tm_wday now)) ws ->
  exists k, find_wday l ws (tm_wday now) j = Some k.
Proof.
  revert j; induction ws as [|[|w] ws IH]; intros j Hw Hin; simpl.
  - destruct Hin.
  - inversion Hw as [|? ? Hu _]; subst. now elim Hu.
  - destruct (Z.eqb_spec w (tm_wday now)) as [->|Hne].
    + now exists j.
    + apply IH.
      * now inversion Hw.
      * destruct Hin as [Heq|Hin]; [|exact Hin].
        inversion Heq; subst; now elim Hne.
Qed.

(** What a result of the week day loop says about the array. *)
Lemma find_wday_found l ws wd j0 j :
  find_wday l ws wd j0 = Some j ->
  exists k s,
    j = (j0 + k)%nat /\ nth_error ws k = Some s /\ read_wday l j s = wd /\
    forall k' s', (k' < k)%nat -> nth_error ws k' = Some s' ->
                  read_wday l (j0 + k') s' <> wd.
Proof.
  revert j0; induction ws as [|s ws IH]; intros j0 H; simpl in H;
    [discriminate|].
  destruct (Z.eqb_spec (read_wday l j0 s) wd) as [Heq|Hne].
  - inversion H; subst j. exists O, s. repeat split.
    + lia.
    + exact Heq.
    + intros k' s' Hk; lia.
  - destruct (IH _ H) as (k & s0 & -> & Hk & Hread & Hfirst).
    exists (S k), s0. repeat split.
    + lia.
    + exact Hk.
    + exact Hread.
    + intros [|k'] s' Hlt Hnth; simpl in Hnth.
      * inversion Hnth; subst s'. now rewrite Nat.add_0_r.
      * replace (j0 + S k')%nat with (S j0 + k')%nat by lia.
        apply (Hfirst k'); [lia|exact Hnth].
Qed.

Lemma find_wday_not_found l ws wd j0 :
  find_wday l ws wd j0 = None ->
  forall k s, nth_error ws k = Some s -> read_wday l (j0 + k) s <> wd.
Proof.
  revert j0; induction ws as [|s ws IH]; intros j0 H k s' Hnth.
  - now destruct k.
  - simpl in H.
    destruct (Z.eqb_spec (read_wday l j0 s) wd) as [Heq|Hne]; [discriminate|].
    destruct k as [|k]; simpl in Hnth.
    + inversion Hnth; subst s'. now rewrite Nat.add_0_r.
    + replace (j0 + S k)%nat with (S j0 + k)%nat by lia.
      exact (IH _ H k s' Hnth).
Qed.

(** And the converse: the loop stops at the first element that compares
    equal, and goes to the end when there is none. *)
Lemma find_wday_first l ws wd j0 k s :
  nth_error ws k = Some s -> read_wday l (j0 + k) s = wd ->
  (forall k' s', (k' < k)%nat -> nth_error ws k' = Some s' ->
                 read_wday l (j0 + k') s' <> wd) ->
  find_wday l ws wd j0 = Some (j0 + k)%nat.
Proof.
  revert j0 k; induction ws as [|s0 ws IH]; intros j0 k Hnth Hread Hfirst.
  - now destruct k.
  - simpl. destruct k as [|k]; simpl in Hnth.
    + inversion Hnth; subst s0. rewrite Nat.add_0_r in *.
      apply Z.eqb_eq in Hread. now rewrite Hread.
    + assert (Hne : read_wday l j0 s0 <> wd).
      { specialize (Hfirst O s0). rewrite Nat.add_0_r in Hfirst.
        apply Hfirst; [lia|reflexivity]. }
      apply Z.eqb_neq in Hne. rewrite Hne.
      replace (j0 + S k)%nat with (S j0 + k)%nat in * by lia.
      apply IH; [exact Hnth|exact Hread|].
      intros k' s' Hlt Hk'.
      replace (S j0 + k')%nat with (j0 + S k')%nat by lia.
      apply Hfirst; [lia|exact Hk'].
Qed.

Lemma find_wday_none l ws wd j0 :
  (forall k s, nth_error ws k = Some s -> read_wday l (j0 + k) s <> wd) ->
  find_wday l ws wd j0 = None.
Proof.
  revert j0; induction ws as [|s ws IH]; intros j0 H; simpl.
  - reflexivity.
  - assert (Hne : read_wday l j0 s <> wd).
    { specialize (H O s). rewrite Nat.add_0_r in H. now apply H. }
    apply Z.eqb_neq in Hne. rewrite Hne.
    apply IH. intros k s' Hk.
    replace (S j0 + k)%nat with (j0 + S k)%nat by lia.
    now apply H.
Qed.

(** In an array that was stored into everywhere, the element found is the
    day itself. *)
Lemma find_wday_listed l ws wd j0 j :
  Forall written ws -> find_wday l ws wd j0 = Some j -> In (Val wd) ws.
Proof.
  intros Hw H.
  destruct (find_wday_found _ _ _ _ _ H) as (k & s & _ & Hk & Hread & _).
  pose proof (nth_error_In _ _ Hk) as Hin.
  rewrite Forall_forall in Hw. specialize (Hw _ Hin).
  destruct s as [|w]; [now elim Hw|].
  simpl in Hread; now subst w.
Qed.

Lemma find_wday_not_listed l ws wd j0 :
  find_wday l ws wd j0 = None -> ~ In (Val wd) ws.
Proof.
  intros H Hin.
  destruct (In_nth_error _ _ Hin) as [k Hk].
  exact (find_wday_not_found _ _ _ _ H k _ Hk eq_refl).
Qed.

Lemma free_roles_written l rs j : Forall written rs -> free_roles l rs j = Ok tt.
Proof.
  revert j; induction rs as [|[|v] rs IH]; intros j H; simpl.
  - reflexivity.
  - inversion H as [|? ? Hu _]; subst. now elim Hu.
  - apply IH. now inversion H.
Qed.

Lemma is_name_written s : is_name s -> written s.
Proof. intros [n ->]; unfold written; discriminate. Qed.

Lemma find_role_names rs :
  Forall is_name rs ->
  (In (Val (Some user_name)) rs -> find_role rs user_name = Ok true) /\
  (~ In (Val (Some user_name)) rs -> find_role rs user_name = Ok false).
Proof.
  induction rs as [|s rs IH]; intros H; simpl.
  - split; [intros []|reflexivity].
  - inversion H as [|? ? [name ->] Hrs]; subst.
    destruct (IH Hrs) as [IHin IHout].
    destruct (String.eqb_spec name user_name) as [->|Hne]; split; intros Hin.
    + reflexivity.
    + elim Hin; now left.
    + apply IHin. destruct Hin as [Heq|Hin]; [|exact Hin].
      inversion Heq; subst; now elim Hne.
    + apply IHout. intros Hin'; apply Hin; now right.
Qed.

Lemma scan_bailout intervals i :
  scan_intervals old intervals i true user_name now = ([], Ok tt).
Proof. destruct intervals; reflexivity. Qed.

(** Rules in which no element compares equal to the day, and whose roles
    are freed, are passed over. *)
Lemma scan_pass pre rest i :
  (forall k r,
     nth_error pre k = Some r ->
     find_wday (left_wday old (i + k)) (wday r) (tm_wday now) 0 = None /\
     free_roles (left_role_null old (i + k)) (roles r) 0 = Ok tt) ->
  scan_intervals old (pre ++ rest) i false user_name now =
  scan_intervals old rest (i + List.length pre) false user_name now.
Proof.
  revert i; induction pre as [|r pre IH]; intros i H; simpl.
  - now rewrite Nat.add_0_r.
  - destruct (H O r eq_refl) as [Hfind Hfree].
    rewrite Nat.add_0_r in Hfind, Hfree. rewrite Hfind, Hfree.
    rewrite IH.
    + f_equal; lia.
    + intros k r' Hk.
      replace (S i + k)%nat with (i + S k)%nat by lia.
      now apply H.
Qed.

(** Rules that do not list the day are passed over. *)
Lemma scan_skip pre rest i :
  Forall initialised pre ->
  Forall (fun r => ~ lists r (tm_wday now)) pre ->
  scan_intervals old (pre ++ rest) i false user_name now =
  scan_intervals old rest (i + List.length pre) false user_name now.
Proof.
  intros Hinit Hno. apply scan_pass. intros k r Hk.
  pose proof (nth_error_In _ _ Hk) as Hin.
  rewrite Forall_forall in Hinit, Hno.
  destruct (Hinit _ Hin) as [Hw Hr]. split.
  - apply find_wday_absent; [exact Hw|exact (Hno _ Hin)].
  - now apply free_roles_written.
Qed.

(** The rule on which the week day test succeeds ends the scan. *)
Lemma scan_hit r rest i j :
  find_wday (left_wday old i) (wday r) (tm_wday now) 0 = Some j ->
  scan_intervals old (r :: rest) i false user_name now =
  ([(i, j)],
   _ <- check_window r user_name now ;;
   free_roles (left_role_null old i) (roles r) 0).
Proof.
  intros H; simpl; rewrite H.
  destruct (check_window r user_name now) as [[]| |]; simpl; try reflexivity.
  destruct (free_roles (left_role_null old i) (roles r) 0) as [[]| |];
    try reflexivity.
  now rewrite scan_bailout.
Qed.

(** The verdict on the first rule that lists the day. *)
Lemma verdict_first_listing pre r post :
  first_listing pre r (tm_wday now) ->
  verdict old (pre ++ r :: post) user_name now =
  (_ <- check_window r user_name now ;; Ok tt).
Proof.
  intros (Hinit & Hno & [Hw Hr] & Hin).
  unfold verdict. rewrite scan_skip by assumption.
  destruct (find_wday_present (left_wday old (0 + List.length pre))
              _ 0%nat Hw Hin) as [j Hj].
  rewrite (scan_hit _ _ _ _ Hj); simpl.
  now rewrite (free_roles_written _ _ _ Hr).
Qed.

Lemma check_window_inside r :
  outside r now = false -> check_window r user_name now = Ok tt.
Proof. unfold check_window; now intros ->. Qed.

Lemma check_window_outside r :
  outside r now = true -> Forall is_name (roles r) ->
  (excludes r user_name -> check_window r user_name now = Ok tt) /\
  (~ excludes r user_name ->
   check_window r user_name now = Elog E_access_denied).
Proof.
  unfold check_window, excludes; intros -> Hn.
  destruct (find_role_names _ Hn) as [Hin Hout].
  split; intros H; [rewrite (Hin H)|rewrite (Hout H)]; reflexivity.
Qed.

Lemma outside_iff r :
  outside r now = true <->
  now_minutes now < minutes (start_time r) \/
  now_minutes now > minutes (end_time r).
Proof.
  unfold outside. rewrite orb_true_iff, Z.ltb_lt, Z.gtb_lt. lia.
Qed.

Lemma inside_iff r :
  outside r now = false <->
  minutes (start_time r) <= now_minutes now <= minutes (end_time r).
Proof.
  unfold outside. rewrite orb_false_iff, Z.ltb_ge, Z.gtb_ltb, Z.ltb_ge. lia.
Qed.

(** C1: on the first rule that lists the current week day, with [s1], [s2]
    and [n1] the start, the end and the current time in minutes: when
    [s1 <= n1 <= s2] the verdict is Allow; when [n1 < s1] or [n1 > s2] the
    verdict is Allow if the user name is equal to an entry of the roles of
    that rule and Deny if it is equal to none. *)
Theorem window_verdict pre r post :
  first_listing pre r (tm_wday now) ->
  let s1 := minutes (start_time r) in
  let s2 := minutes (end_time r) in
  let n1 := now_minutes now in
  (s1 <= n1 <= s2 -> verdict old (pre ++ r :: post) user_name now = Allow) /\
  (n1 < s1 \/ n1 > s2 ->
   Forall is_name (roles r) ->
   (excludes r user_name ->
    verdict old (pre ++ r :: post) user_name now = Allow) /\
   (~ excludes r user_name ->
    verdict old (pre ++ r :: post) user_name now = Deny)).
Proof.
  intros Hfirst s1 s2 n1.
  rewrite (verdict_first_listing _ _ _ Hfirst).
  split.
  - intros Hin. apply inside_iff in Hin.
    now rewrite check_window_inside.
  - intros Hout Hnames. apply outside_iff in Hout.
    destruct (check_window_outside _ Hout Hnames) as [Hyes Hno].
    split; intros H; [rewrite (Hyes H)|rewrite (Hno H)]; reflexivity.
Qed.

(** The scan from rule [i0] on: at most one pair is evaluated; the week day
    loop found it in its rule after it found nothing in the rules before,
    whose roles were freed; the outcome is that of its rule, and nothing
    after its rule matters. *)
Lemma scan_first_pair intervals i0 :
  let '(seen, out) := scan_intervals old intervals i0 false user_name now in
  seen = [] \/
  exists k j r,
    seen = [((i0 + k)%nat, j)] /\
    nth_error intervals k = Some r /\
    find_wday (left_wday old (i0 + k)) (wday r) (tm_wday now) 0 = Some j /\
    (forall k' r', (k' < k)%nat -> nth_error intervals k' = Some r' ->
       find_wday (left_wday old (i0 + k')) (wday r') (tm_wday now) 0 = None /\
       free_roles (left_role_null old (i0 + k')) (roles r') 0 = Ok tt) /\
    out = (_ <- check_window r user_name now ;;
           free_roles (left_role_null old (i0 + k)) (roles r) 0) /\
    forall post,
      scan_intervals old (firstn (S k) intervals ++ post) i0 false
        user_name now = (seen, out).
Proof.
  revert i0; induction intervals as [|r rest IH]; intros i0.
  - simpl; now left.
  - destruct (find_wday (left_wday old i0) (wday r) (tm_wday now) 0)
      as [j|] eqn:Hfind.
    + (* the day is entry [j] of this rule *)
      rewrite (scan_hit _ rest _ _ Hfind).
      right. exists O, j, r. rewrite Nat.add_0_r.
      split; [reflexivity|]. split; [reflexivity|]. split; [exact Hfind|].
      split; [intros k' r' Hk; lia|]. split; [reflexivity|].
      intros post. simpl firstn; simpl app. now apply scan_hit.
    + (* nothing in this rule compares equal to the day *)
      cbn [scan_intervals]. rewrite Hfind.
      destruct (free_roles (left_role_null old i0) (roles r) 0)
        as [[]| |] eqn:Hfree; try (now left).
      specialize (IH (S i0)).
      destruct (scan_intervals old rest (S i0) false user_name now)
        as [seen out].
      destruct IH
        as [->|(k & j & r0 & -> & Hk & Hj & Hrules & Hout & Hpost)];
        [now left|].
      replace (S i0 + k)%nat with (i0 + S k)%nat in * by lia.
      right. exists (S k), j, r0.
      split; [reflexivity|]. split; [exact Hk|]. split; [exact Hj|].
      split; [|split; [exact Hout|]].
      * intros [|k'] r' Hlt Hnth; simpl in Hnth.
        -- inversion Hnth; subst r'. rewrite Nat.add_0_r. now split.
        -- replace (i0 + S k')%nat with (S i0 + k')%nat by lia.
           apply (Hrules k' r'); [lia|exact Hnth].
      * intros post.
        change (firstn (S (S k)) (r :: rest) ++ post)
          with (r :: (firstn (S k) rest ++ post)).
        cbn [scan_intervals]. rewrite Hfind, Hfree. exact (Hpost post).
Qed.

Lemma nth_error_split (A : Type) (l : list A) i x :
  nth_error l i = Some x ->
  l = firstn i l ++ x :: skipn (S i) l /\ List.length (firstn i l) = i.
Proof.
  revert i; induction l as [|y l IH]; intros [|i] H; simpl in H;
    try discriminate.
  - inversion H; subst. now split.
  - destruct (IH _ H) as [Hl Hlen]. split.
    + change (y :: l = y :: (firstn i l ++ x :: skipn (S i) l)).
      now f_equal.
    + cbn [firstn List.length]. now rewrite Hlen.
Qed.

Lemma nth_error_firstn_some (A : Type) (l : list A) i k x :
  nth_error (firstn i l) k = Some x ->
  (k < i)%nat /\ nth_error l k = Some x.
Proof.
  revert i k; induction l as [|y l IH]; intros [|i] [|k] H; simpl in H;
    try discriminate.
  - inversion H; subst. split; [lia|reflexivity].
  - destruct (IH _ _ H) as [Hlt Hk]. split; [lia|exact Hk].
Qed.

(** C2: the evaluation runs the body of the week day test on at most one
    (rule, week day entry) pair.  A pair is evaluated exactly when it is the
    first pair, in rule order and then in entry order, whose entry compares
    equal to the current week day, and the loop gets to it (the roles of the
    rules before it are freed without a fault).  The verdict is then the
    outcome of the window check on the rule of that pair alone, followed by
    the freeing of its roles, and every rule after it is never consulted:
    the pairs evaluated and the verdict are the same whatever rules follow,
    whether they list the day or not. *)
Theorem first_match_only intervals :
  (List.length (evaluated old intervals user_name now) <= 1)%nat /\
  (forall p,
     evaluated old intervals user_name now = [p] <->
     first_pair old intervals (tm_wday now) p /\
     frees_before old intervals (fst p)) /\
  (forall i j r,
     evaluated old intervals user_name now = [(i, j)] ->
     nth_error intervals i = Some r ->
     verdict old intervals user_name now =
     (_ <- check_window r user_name now ;;
      free_roles (left_role_null old i) (roles r) 0) /\
     forall post,
       evaluated old (firstn (S i) intervals ++ post) user_name now =
       [(i, j)] /\
       verdict old (firstn (S i) intervals ++ post) user_name now =
       verdict old intervals user_name now).
Proof.
  unfold evaluated, verdict.
  pose proof (scan_first_pair intervals 0) as H.
  destruct (scan_intervals old intervals 0 false user_name now)
    as [seen out] eqn:Hscan.
  cbn [fst snd]. split; [|split].
  - destruct H as [->|(k & j & r & -> & _)]; simpl; lia.
  - intros [i j]; split.
    + (* the pair evaluated is the first one *)
      intros ->.
      destruct H as [H|(k & j' & r & H & Hk & Hj & Hrules & _)];
        [discriminate|].
      inversion H; subst i j'. clear H. cbn [Nat.add] in *.
      destruct (find_wday_found _ _ _ _ _ Hj)
        as (j' & s & Hjj & Hs & Hread & Hfirst).
      cbn [Nat.add] in *. subst j'.
      split; [split|].
      * exists r, s. cbn [fst snd]. now repeat split.
      * intros [i' j'] [Hlt|[Heq Hlt]] (r' & s' & Hr' & Hs' & Hread');
          cbn [fst snd] in *.
        -- destruct (Hrules _ _ Hlt Hr') as [Hnone _].
           exact (find_wday_not_found _ _ _ _ Hnone _ _ Hs' Hread').
        -- subst i'. rewrite Hk in Hr'. inversion Hr'; subst r'.
           exact (Hfirst _ _ Hlt Hs' Hread').
      * intros i' r' Hlt Hr'. cbn [fst] in Hlt.
        now destruct (Hrules _ _ Hlt Hr').
    + (* the first pair is evaluated *)
      intros [[(r & s & Hr & Hs & Hread) Hfirst] Hfree].
      cbn [fst snd] in *.
      destruct (nth_error_split _ _ _ _ Hr) as [Hsplit Hlen].
      rewrite Hsplit, scan_pass, Hlen in Hscan.
      * cbn [Nat.add] in Hscan.
        rewrite (scan_hit r _ i j) in Hscan.
        -- now inversion Hscan.
        -- apply (find_wday_first _ _ _ 0%nat j s); [exact Hs|exact Hread|].
           intros j' s' Hlt Hs' Hread'.
           apply (Hfirst (i, j')).
           ++ right; now split.
           ++ now exists r, s'.
      * intros k r' Hk. cbn [Nat.add].
        destruct (nth_error_firstn_some _ _ _ _ _ Hk) as [Hlt Hr'].
        split.
        -- apply find_wday_none. intros j' s' Hs' Hread'.
           apply (Hfirst (k, j')).
           ++ left; exact Hlt.
           ++ now exists r', s'.
        -- exact (Hfree _ _ Hlt Hr').
  - (* the rule of the pair decides, whatever follows *)
    intros i j r -> Hr.
    destruct H as [H|(k & j' & r' & H & Hk & _ & _ & Hout & Hpost)];
      [discriminate|].
    inversion H; subst i j'. cbn [Nat.add] in *.
    rewrite Hk in Hr. inversion Hr; subst r'.
    split; [exact Hout|].
    intros post. now rewrite Hpost.
Qed.

Lemma inverted_is_outside r :
  minutes (start_time r) > minutes (end_time r) -> outside r now = true.
Proof. intros H. apply outside_iff. lia. Qed.

End Evaluator.

(** C3: without an interval string there are no rules: [parse_options]
    leaves the array as it is and the hook returns without a check, whatever
    the status, the role string, the user and the time; and on an array of
    rules none of which lists the current week day (the empty array included)
    nothing is evaluated and the verdict is Allow, whatever the user name,
    the time of day and the roles of the rules. *)
Theorem silent_policy_allows :
  (forall exclude_roles ir n, parse_options None exclude_roles ir n = Ok ir) /\
  (forall STATUS_OK old status exclude_roles user_name now,
     block_access_checks STATUS_OK old status None exclude_roles user_name
       now = Allow) /\
  (forall old user_name now,
     verdict old [] user_name now = Allow) /\
  (forall old intervals user_name now,
     Forall initialised intervals ->
     Forall (fun r => ~ lists r (tm_wday now)) intervals ->
     evaluated old intervals user_name now = [] /\
     verdict old intervals user_name now = Allow).
Proof.
  repeat split.
  - unfold evaluated.
    rewrite <- (app_nil_r intervals), scan_skip by assumption. reflexivity.
  - unfold verdict.
    rewrite <- (app_nil_r intervals), scan_skip by assumption. reflexivity.
Qed.

(** C6: a rule whose start time in minutes is greater than its end time in
    minutes has no minute inside its window; when it is the first rule that
    lists the current week day, the verdict is Allow if the user name is an
    entry of its roles and Deny if it is not. *)
Theorem inverted_window old user_name now pre r post :
  minutes (start_time r) > minutes (end_time r) ->
  first_listing pre r (tm_wday now) ->
  Forall is_name (roles r) ->
  (forall t : tm,
     ~ (minutes (start_time r) <= now_minutes t <= minutes (end_time r))) /\
  (excludes r user_name ->
   verdict old (pre ++ r :: post) user_name now = Allow) /\
  (~ excludes r user_name ->
   verdict old (pre ++ r :: post) user_name now = Deny).
Proof.
  intros Hinv Hfirst Hnames.
  split; [intros t; lia|].
  rewrite (verdict_first_listing _ _ _ _ _ _ Hfirst).
  destruct (check_window_outside user_name now r
              (inverted_is_outside now r Hinv) Hnames) as [Hyes Hno].
  split; intros H; [rewrite (Hyes H)|rewrite (Hno H)]; reflexivity.
Qed.

(** ** The parser *)

Section Joining.

Variable delims : string.

Lemma split_all_free s :
  Forall (fun g => strpbrk g delims = None) (split_all delims s).
Proof.
  induction s as [|c s IH]; simpl.
  - now constructor.
  - destruct (mem c delims) eqn:Hc.
    + now constructor.
    + destruct (split_all delims s) as [|g gs].
      * constructor; [simpl; now rewrite Hc|constructor].
      * inversion IH as [|? ? Hg Hgs]; subst.
        constructor; [simpl; now rewrite Hc, Hg|exact Hgs].
Qed.

Lemma split_all_app g x rest :
  strpbrk g delims = None -> mem x delims = true ->
  split_all delims (g ++ String x rest)%string = g :: split_all delims rest.
Proof.
  intros Hg Hx; induction g as [|c g IH]; simpl.
  - now rewrite Hx.
  - simpl in Hg. destruct (mem c delims); [discriminate|].
    destruct (strpbrk g delims) as [[? ?]|]; [discriminate|].
    now rewrite IH.
Qed.

Lemma strtok_token s tok :
  In tok (strtok_tokens s delims) ->
  nonempty tok = true /\ strpbrk tok delims = None.
Proof.
  rewrite strtok_tokens_groups, filter_In. intros [Hin Hne].
  split; [exact Hne|].
  pose proof (split_all_free s) as H. rewrite Forall_forall in H.
  now apply H.
Qed.

(** Three tokens put together again with one delimiter between them are the
    tokens of the result. *)
Lemma strtok_tokens_join3 s x p1 p2 p3 more :
  mem x delims = true ->
  strtok_tokens s delims = p1 :: p2 :: p3 :: more ->
  strtok_tokens (p1 ++ String x (p2 ++ String x p3))%string delims =
  [p1; p2; p3].
Proof.
  intros Hx Htok.
  assert (H : forall p, In p [p1; p2; p3] ->
                        nonempty p = true /\ strpbrk p delims = None).
  { intros p Hp. apply (strtok_token s). rewrite Htok.
    simpl in Hp; simpl; tauto. }
  destruct (H p1) as [N1 F1]; [simpl; tauto|].
  destruct (H p2) as [N2 F2]; [simpl; tauto|].
  destruct (H p3) as [N3 F3]; [simpl; tauto|].
  rewrite strtok_tokens_groups.
  rewrite (split_all_app _ _ _ F1 Hx), (split_all_app _ _ _ F2 Hx).
  rewrite (strpbrk_none _ _ F3).
  simpl. now rewrite N1, N2, N3.
Qed.

End Joining.

(** [parse_interval] on a group with at least three parts. *)
Lemma parse_interval_parts iv s p1 p2 p3 more :
  strtok_tokens s "-" = p1 :: p2 :: p3 :: more ->
  parse_interval iv (Some s) =
  (item <- pstrdup (trimmed p1) ;;
   wday <- parse_wdays (strtok_tokens item ",") item 0
             (repeat Unset (S (count_char "," item))) ;;
   item <- pstrdup (trimmed p2) ;;
   start_time <- parse_time Start item ;;
   item <- pstrdup (trimmed p3) ;;
   end_time <- parse_time End item ;;
   Ok {| wday := wday; start_time := start_time; end_time := end_time;
         roles := roles iv |}).
Proof.
  intros H. unfold parse_interval. cbn [pstrdup bind]. now rewrite H.
Qed.

(** [parse_time] on a string with an hour and a minute token that [atoi]
    reads: only the ranges are checked. *)
Lemma parse_time_read b time_str ph pm rest h m :
  strtok_tokens time_str ":" = ph :: pm :: rest ->
  atoi ph = Some h -> atoi pm = Some m ->
  parse_time b time_str =
  if hour_ok h then
    if minute_ok m then Ok {| hour := h; minute := m |}
    else Elog (E_minute_range b m)
  else Elog (E_hour_range b h).
Proof.
  intros Htok Hh Hm. unfold parse_time, atoi_int, hour_ok, minute_ok.
  rewrite Htok, Hh. cbn [bind].
  destruct ((h <? 0) || (h >? 23)); [reflexivity|].
  rewrite Hm. cbn [bind negb].
  now destruct ((m <? 0) || (m >? 59)).
Qed.

Lemma parse_roles_slots iv s :
  parse_roles iv (Some s) =
  Ok {| wday := wday iv; start_time := start_time iv;
        end_time := end_time iv;
        roles := map (fun p => Val (trimmed p)) (strtok_tokens s ",") ++
                 repeat Unset (List.length (split_all "," s) -
                               List.length (strtok_tokens s ",")) |}.
Proof.
  unfold parse_roles.
  rewrite <- (split_all_count "," s).
  now rewrite store_roles_fill by apply strtok_tokens_length.
Qed.

Lemma named_groups_nonempty gs :
  Forall (fun g => trimmed g <> None) gs -> filter nonempty gs = gs.
Proof.
  induction 1 as [|g gs Hg _ IH]; [reflexivity|]. simpl.
  destruct g as [|c g]; [now elim Hg|]. simpl. now rewrite IH.
Qed.

(** A role group with a name at every position between its commas gives an
    array of names. *)
Lemma parse_roles_names iv s :
  Forall (fun g => trimmed g <> None) (split_all "," s) ->
  exists r, parse_roles iv (Some s) = Ok r /\ Forall is_name (roles r).
Proof.
  intros Hall. eexists; split; [apply parse_roles_slots|]. cbn [roles].
  rewrite strtok_tokens_groups, (named_groups_nonempty _ Hall).
  rewrite Nat.sub_diag, app_nil_r.
  induction Hall as [|g gs Hg _ IH]; simpl; constructor; [|exact IH].
  destruct (trimmed g) as [name|]; [now exists name|now elim Hg].
Qed.

(** C4: when the interval string and the role string have different numbers
    of groups separated by semicolons, the hook fails with the group count
    error, whatever the groups hold, the user and the time: no group is
    parsed, no rule is evaluated and there is no verdict. *)
Theorem group_count_mismatch STATUS_OK old interval_time exclude_roles
    user_name now :
  group_count interval_time <> group_count exclude_roles ->
  block_access_checks STATUS_OK old STATUS_OK (Some interval_time)
    (Some exclude_roles) user_name now = Elog E_count_mismatch /\
  fails_with
    (block_access_checks STATUS_OK old STATUS_OK (Some interval_time)
       (Some exclude_roles) user_name now) GroupCountMismatch.
Proof.
  intros H. rewrite !group_count_semicolons in H.
  assert (E : block_access_checks STATUS_OK old STATUS_OK (Some interval_time)
                (Some exclude_roles) user_name now = Elog E_count_mismatch).
  { unfold block_access_checks. rewrite Z.eqb_refl.
    destruct (Nat.eqb_spec (S (count_char ";" interval_time))
                           (S (count_char ";" exclude_roles))) as [E|_];
      [now elim H|reflexivity]. }
  split; [exact E|]. exists E_count_mismatch. now split.
Qed.

(** C5 (as amended): the group array of the role string holds every group of
    the string in order, each trimmed, the empty marker standing for a group
    that is empty or all white space; no delimiter is collapsed and an empty
    last group is there.  The group array of the interval string holds, from
    its first element on, the non-empty groups of the trimmed string in
    order, each trimmed, and the empty marker in the elements that remain. *)
Theorem group_arrays :
  (forall exclude_roles,
     role_items (Some exclude_roles) (group_count exclude_roles) =
     Ok (map trimmed (split_all ";" exclude_roles))) /\
  (forall interval_time t,
     trim (Some interval_time) = Some t ->
     interval_items (Some interval_time) (group_count interval_time) =
     Ok (pad (group_count interval_time)
             (map trimmed (filter nonempty (split_all ";" t))))).
Proof.
  split.
  - exact role_items_all.
  - exact interval_items_nonempty.
Qed.

Lemma hour_ok_iff h : hour_ok h = true <-> 0 <= h <= 23.
Proof.
  unfold hour_ok.
  rewrite negb_true_iff, orb_false_iff, Z.ltb_ge, Z.gtb_ltb, Z.ltb_ge. lia.
Qed.

Lemma minute_ok_iff m : minute_ok m = true <-> 0 <= m <= 59.
Proof.
  unfold minute_ok.
  rewrite negb_true_iff, orb_false_iff, Z.ltb_ge, Z.gtb_ltb, Z.ltb_ge. lia.
Qed.

Lemma hour_bad h : h < 0 \/ h > 23 -> hour_ok h = false.
Proof.
  intros H. destruct (hour_ok h) eqn:E; [|reflexivity].
  apply hour_ok_iff in E. lia.
Qed.

Lemma minute_bad m : m < 0 \/ m > 59 -> minute_ok m = false.
Proof.
  intros H. destruct (minute_ok m) eqn:E; [|reflexivity].
  apply minute_ok_iff in E. lia.
Qed.

Lemma parse_time_no_hour b time_str :
  strtok_tokens time_str ":" = [] ->
  parse_time b time_str = Elog (E_parse_hour b time_str).
Proof. intros H. unfold parse_time. now rewrite H. Qed.

Lemma parse_time_hour b time_str ph rest h :
  strtok_tokens time_str ":" = ph :: rest -> atoi ph = Some h ->
  parse_time b time_str =
  if hour_ok h then
    match rest with
    | [] => Elog (E_parse_minute b time_str)
    | pm :: _ =>
        m <- atoi_int pm ;;
        if minute_ok m then Ok {| hour := h; minute := m |}
        else Elog (E_minute_range b m)
    end
  else Elog (E_hour_range b h).
Proof.
  intros Htok Hh. unfold parse_time, atoi_int, hour_ok, minute_ok.
  rewrite Htok, Hh. cbn [bind].
  destruct ((h <? 0) || (h >? 23)); [reflexivity|].
  destruct rest as [|pm rest]; [reflexivity|].
  destruct (atoi pm) as [m|]; [|reflexivity].
  cbn [bind negb]. now destruct ((m <? 0) || (m >? 59)).
Qed.

Lemma fails_with_elog {A : Type} (r : result A) e :
  r = Elog e -> fails_with r (kind_of e).
Proof. intros ->. now exists e. Qed.

(** C7 (as amended): the time string of a group is cut into tokens at its
    colons, colons at the front and repeated colons being skipped; the first
    token is the hour and the second the minute, each read by [atoi].  The
    checks run in this order and the first that fails gives the error: no
    token, malformed time; hour below 0 or above 23, hour out of range; no
    second token, malformed time; minute below 0 or above 59, minute out of
    range.  In a group whose week days parse, the start time is checked first
    and then the end time. *)
Theorem time_token_checks :
  (forall b time_str,
     strtok_tokens time_str ":" = [] ->
     parse_time b time_str = Elog (E_parse_hour b time_str) /\
     fails_with (parse_time b time_str) MalformedTime) /\
  (forall b time_str ph rest h,
     strtok_tokens time_str ":" = ph :: rest -> atoi ph = Some h ->
     h < 0 \/ h > 23 ->
     parse_time b time_str = Elog (E_hour_range b h) /\
     fails_with (parse_time b time_str) HourOutOfRange) /\
  (forall b time_str ph h,
     strtok_tokens time_str ":" = [ph] -> atoi ph = Some h ->
     0 <= h <= 23 ->
     parse_time b time_str = Elog (E_parse_minute b time_str) /\
     fails_with (parse_time b time_str) MalformedTime) /\
  (forall b time_str ph pm rest h m,
     strtok_tokens time_str ":" = ph :: pm :: rest ->
     atoi ph = Some h -> 0 <= h <= 23 ->
     atoi pm = Some m -> m < 0 \/ m > 59 ->
     parse_time b time_str = Elog (E_minute_range b m) /\
     fails_with (parse_time b time_str) MinuteOutOfRange) /\
  (forall iv s p1 p2 p3 more weekday_str wday start_time_str,
     strtok_tokens s "-" = p1 :: p2 :: p3 :: more ->
     trimmed p1 = Some weekday_str ->
     parse_wdays (strtok_tokens weekday_str ",") weekday_str 0
       (repeat Unset (S (count_char "," weekday_str))) = Ok wday ->
     trimmed p2 = Some start_time_str ->
     parse_interval iv (Some s) =
     (start_time <- parse_time Start start_time_str ;;
      end_time_str <- pstrdup (trimmed p3) ;;
      end_time <- parse_time End end_time_str ;;
      Ok {| wday := wday; start_time := start_time; end_time := end_time;
            roles := roles iv |})).
Proof.
  assert (both : forall (r : result BATime) e,
            r = Elog e -> r = Elog e /\ fails_with r (kind_of e)).
  { intros r e H; split; [exact H|now apply fails_with_elog]. }
  repeat apply conj.
  - intros b time_str Htok.
    apply (both _ (E_parse_hour b time_str)).
    now apply parse_time_no_hour.
  - intros b time_str ph rest h Htok Hh Hrange.
    apply (both _ (E_hour_range b h)).
    now rewrite (parse_time_hour _ _ _ _ _ Htok Hh), hour_bad.
  - intros b time_str ph h Htok Hh Hrange.
    apply (both _ (E_parse_minute b time_str)).
    apply hour_ok_iff in Hrange.
    now rewrite (parse_time_hour _ _ _ _ _ Htok Hh), Hrange.
  - intros b time_str ph pm rest h m Htok Hh Hhr Hm Hmr.
    apply (both _ (E_minute_range b m)).
    apply hour_ok_iff in Hhr.
    rewrite (parse_time_hour _ _ _ _ _ Htok Hh), Hhr.
    unfold atoi_int. rewrite Hm. cbn [bind]. now rewrite minute_bad.
  - intros iv s p1 p2 p3 more weekday_str wday start_time_str
      Htok Hwd Hws Hst.
    rewrite (parse_interval_parts _ _ _ _ _ _ Htok), Hwd.
    cbn [pstrdup bind]. rewrite Hws, Hst. reflexivity.
Qed.

(** An interval string in which a time has no hour before its colon: the
    minute is read as the hour, and the error is the range of the hour. *)
Lemma missing_hour_reads_minute_as_hour :
  parse_interval zeroed (Some "mon - :30 - 18:00") =
  Elog (E_hour_range Start 30) /\
  ~ fails_with (parse_interval zeroed (Some "mon - :30 - 18:00"))
      MalformedTime.
Proof.
  split; [reflexivity|].
  intros (e & He & Hk). vm_compute in He.
  inversion He; subst. discriminate.
Qed.

(** A time that is all white space is a NULL after [trim], and [pstrdup]
    reads through it. *)
Example blank_time_faults :
  parse_interval zeroed (Some "mon -  - 18:00") = Fault NullDeref.
Proof. reflexivity. Qed.

(** *** Roles *)

Lemma find_role_stops_at rs1 bad rs2 user_name :
  Forall is_name rs1 -> ~ In (Val (Some user_name)) rs1 -> ~ is_name bad ->
  find_role (rs1 ++ bad :: rs2) user_name = find_role [bad] user_name.
Proof.
  induction rs1 as [|s rs1 IH]; intros Hn Hout Hbad.
  - simpl. destruct bad as [|[role|]]; try reflexivity.
    elim Hbad. now exists role.
  - inversion Hn as [|? ? [name ->] Hn']; subst.
    cbn [app find_role].
    destruct (String.eqb_spec name user_name) as [->|_].
    + elim Hout; now left.
    + apply IH; [exact Hn'| |exact Hbad]. intros H; apply Hout; now right.
Qed.

(** C8: [parse_roles] makes an array with one element for each position
    between the commas of the role group, stores the trimmed tokens from the
    front (NULL for a token that is all white space) and leaves unset the
    elements for which no token came; the scan for the user name compares
    with every element it reaches, and faults on the first one that is NULL
    or unset when no name before it is the user. *)
Theorem role_slots_unguarded :
  (forall iv s,
     exists r, parse_roles iv (Some s) = Ok r /\
               List.length (roles r) = List.length (split_all "," s)) /\
  (exists r, parse_roles zeroed (Some "alice, ,bob") = Ok r /\
             roles r = [Val (Some "alice"); Val None; Val (Some "bob")]) /\
  (exists r, parse_roles zeroed (Some "alice,,bob") = Ok r /\
             roles r = [Val (Some "alice"); Val (Some "bob"); Unset]) /\
  (exists r, parse_roles zeroed (Some "alice,") = Ok r /\
             roles r = [Val (Some "alice"); Unset]) /\
  (forall rs1 rs2 user_name,
     Forall is_name rs1 -> ~ In (Val (Some user_name)) rs1 ->
     find_role (rs1 ++ Val None :: rs2) user_name = Fault NullDeref /\
     find_role (rs1 ++ Unset :: rs2) user_name = Fault UninitRead) /\
  (forall STATUS_OK old,
     block_access_checks STATUS_OK old STATUS_OK (Some "sat - 08:00 - 12:00")
       (Some "alice, ,bob") "bob" (saturday 12 1) = Fault NullDeref) /\
  (forall STATUS_OK old,
     block_access_checks STATUS_OK old STATUS_OK (Some "sat - 08:00 - 12:00")
       (Some "alice,,bob") "carol" (saturday 12 1) = Fault UninitRead).
Proof.
  repeat apply conj; try (eexists; split; reflexivity);
    try (intros ok old; unfold block_access_checks; rewrite Z.eqb_refl;
         reflexivity).
  - intros iv s. eexists. split; [apply parse_roles_slots|].
    cbn [roles]. rewrite length_app, length_map, repeat_length.
    pose proof (strtok_tokens_length "," s). lia.
  - intros rs1 rs2 user_name Hn Hout.
    rewrite !find_role_stops_at;
      try assumption; try (intros [name H]; discriminate H).
    now split.
Qed.

(** *** Times that are not numbers *)

Lemma isdigit_not_space c : isdigit c = true -> isspace c = false.
Proof.
  unfold isdigit, isspace. intros H.
  repeat match goal with
  | |- context [Ascii.eqb c ?x] =>
      destruct (Ascii.eqb_spec c x) as [->|_]; [discriminate H|]
  end.
  reflexivity.
Qed.

Lemma isdigit_not_sign c :
  isdigit c = true -> (c =? "-")%char = false /\ (c =? "+")%char = false.
Proof.
  unfold isdigit. intros H.
  split;
    match goal with
    | |- Ascii.eqb c ?x = false =>
        destruct (Ascii.eqb_spec c x) as [->|_];
          [discriminate H|reflexivity]
    end.
Qed.

Lemma digits_app ds c t acc :
  all_digits ds = true -> isdigit c = false ->
  digits (ds ++ String c t)%string acc = digits ds acc.
Proof.
  revert acc; induction ds as [|d ds IH]; intros acc Hds Hc; simpl.
  - now rewrite Hc.
  - simpl in Hds. apply andb_true_iff in Hds as [Hd Hds].
    rewrite Hd. now apply IH.
Qed.

Lemma atoi_no_digits c t :
  isspace c = false -> isdigit c = false ->
  c <> "+"%char -> c <> "-"%char ->
  atoi (String c t) = Some 0.
Proof.
  intros Hs Hd Hplus Hminus. unfold atoi, strtol10. simpl skip_space.
  rewrite Hs.
  destruct (Ascii.eqb_spec c "-"%char) as [->|_]; [now elim Hminus|].
  destruct (Ascii.eqb_spec c "+"%char) as [->|_]; [now elim Hplus|].
  simpl. now rewrite Hd.
Qed.

Lemma atoi_digit_prefix d ds c t :
  isdigit d = true -> all_digits ds = true -> isdigit c = false ->
  atoi (String d ds ++ String c t)%string = atoi (String d ds).
Proof.
  intros Hd Hds Hc. unfold atoi, strtol10. simpl skip_space.
  rewrite (isdigit_not_space _ Hd).
  destruct (isdigit_not_sign _ Hd) as [-> ->].
  change (String d (ds ++ String c t)%string)
    with (String d ds ++ String c t)%string.
  rewrite digits_app; [reflexivity| |exact Hc].
  simpl. now rewrite Hd, Hds.
Qed.

(** An hour that is not a number and whose digits at the front are out of
    range: the group is refused for the range of the hour. *)
Lemma nonnumeric_hour_out_of_range :
  all_digits "99x" = false /\
  parse_interval zeroed (Some "mon - 99x:00 - 18:00") =
  Elog (E_hour_range Start 99) /\
  all_digits "+30" = false /\
  parse_interval zeroed (Some "mon - +30:00 - 18:00") =
  Elog (E_hour_range Start 30).
Proof. repeat split. Qed.

(** C9 (as amended): an hour or a minute token that is not a number is not
    refused as malformed.  [atoi] reads it: as 0 when it starts with a
    character that is neither white space, nor a sign, nor a digit, and as
    the number its digits at the front make when it starts with digits.  The
    range checks are then made on the integers read, and the time is accepted
    when both pass: the group "mon - ab:cd - 18:00" starts at 00:00. *)
Theorem nonnumeric_token_read_by_atoi :
  (forall c t,
     isspace c = false -> isdigit c = false ->
     c <> "+"%char -> c <> "-"%char ->
     atoi (String c t) = Some 0) /\
  (forall d ds c t,
     isdigit d = true -> all_digits ds = true -> isdigit c = false ->
     atoi (String d ds ++ String c t)%string = atoi (String d ds)) /\
  (forall b time_str ph pm rest h m,
     strtok_tokens time_str ":" = ph :: pm :: rest ->
     atoi ph = Some h -> atoi pm = Some m ->
     parse_time b time_str =
     if hour_ok h then
       if minute_ok m then Ok {| hour := h; minute := m |}
       else Elog (E_minute_range b m)
     else Elog (E_hour_range b h)) /\
  parse_interval zeroed (Some "mon - ab:cd - 18:00") =
  Ok {| wday := [Val 1];
        start_time := {| hour := 0; minute := 0 |};
        end_time := {| hour := 18; minute := 0 |};
        roles := [] |}.
Proof.
  repeat apply conj.
  - exact atoi_no_digits.
  - exact atoi_digit_prefix.
  - exact parse_time_read.
  - reflexivity.
Qed.

(** *** More than three parts *)

(** The week day loop over tokens that are names stores their days. *)
Lemma parse_wdays_prefix good ds rest weekday_str pre k :
  Forall2 names_day good ds ->
  (List.length good + List.length rest <= k)%nat ->
  parse_wdays (good ++ rest) weekday_str (List.length pre)
    (pre ++ repeat Unset k) =
  parse_wdays rest weekday_str (List.length (pre ++ map Val ds))
    ((pre ++ map Val ds) ++ repeat Unset (k - List.length good)).
Proof.
  intros Hgood. revert pre k.
  induction Hgood as [|tok d good ds (item & Htrim & Hday) _ IH];
    intros pre k Hk.
  - simpl. now rewrite app_nil_r, Nat.sub_0_r.
  - destruct k as [|k]; [simpl in Hk; lia|].
    cbn [app parse_wdays]. unfold trimmed in Htrim. rewrite Htrim, Hday.
    simpl repeat. rewrite store_at. cbn [bind].
    replace (S (List.length pre)) with (List.length (pre ++ [Val d]))
      by (rewrite length_app; simpl; lia).
    replace (pre ++ Val d :: repeat Unset k)
      with ((pre ++ [Val d]) ++ repeat Unset k)
      by (now rewrite <- app_assoc).
    rewrite IH by (simpl in Hk; lia).
    simpl map. simpl List.length. simpl Nat.sub.
    now rewrite <- !app_assoc.
Qed.

Lemma parse_wdays_names toks ds weekday_str k :
  Forall2 names_day toks ds -> (List.length toks <= k)%nat ->
  parse_wdays toks weekday_str 0 (repeat Unset k) =
  Ok (map Val ds ++ repeat Unset (k - List.length ds)).
Proof.
  intros Hn Hk.
  pose proof (parse_wdays_prefix toks ds [] weekday_str [] k Hn) as H.
  rewrite app_nil_r in H. simpl in H. rewrite H by lia.
  now rewrite (Forall2_length Hn).
Qed.

(** Tokens for which the week day loop returns are names. *)
Lemma parse_wdays_named toks weekday_str i a b :
  parse_wdays toks weekday_str i a = Ok b ->
  exists ds, Forall2 names_day toks ds.
Proof.
  revert i a; induction toks as [|ptr toks IH]; intros i a H;
    cbn [parse_wdays] in H.
  - now exists [].
  - destruct (trim (Some ptr)) as [item_wd|] eqn:Htrim; [|discriminate].
    destruct (weekday_of item_wd) as [d|] eqn:Hd; [|discriminate].
    destruct (store a i (Val d)) as [a1| |]; try discriminate.
    cbn [bind] in H. destruct (IH _ _ H) as [ds Hds].
    exists (d :: ds). constructor; [|exact Hds].
    now exists item_wd.
Qed.

(** C10 (as amended): a group that [strtok] cuts at its dashes into more
    than three parts is parsed as the group of its first three parts, and
    what follows the third part is not looked at.  When the first part,
    trimmed, is a list of week day names and the second and the third,
    trimmed, are times that are accepted, parsing succeeds with the rule of
    these days and times; it succeeds in no other case; and in every case
    the outcome, rule or error, is that of the group made of the first three
    parts alone. *)
Theorem extra_parts_ignored iv s p1 p2 p3 p4 more :
  strtok_tokens s "-" = p1 :: p2 :: p3 :: p4 :: more ->
  (forall weekday_str ds start_time_str t1 end_time_str t2,
     trimmed p1 = Some weekday_str ->
     Forall2 names_day (strtok_tokens weekday_str ",") ds ->
     trimmed p2 = Some start_time_str ->
     parse_time Start start_time_str = Ok t1 ->
     trimmed p3 = Some end_time_str ->
     parse_time End end_time_str = Ok t2 ->
     parse_interval iv (Some s) =
     Ok {| wday := map Val ds ++
                   repeat Unset (List.length (split_all "," weekday_str) -
                                 List.length ds);
           start_time := t1; end_time := t2; roles := roles iv |}) /\
  (forall r,
     parse_interval iv (Some s) = Ok r ->
     exists weekday_str ds start_time_str end_time_str,
       trimmed p1 = Some weekday_str /\
       Forall2 names_day (strtok_tokens weekday_str ",") ds /\
       trimmed p2 = Some start_time_str /\
       parse_time Start start_time_str = Ok (start_time r) /\
       trimmed p3 = Some end_time_str /\
       parse_time End end_time_str = Ok (end_time r) /\
       wday r = map Val ds ++
                repeat Unset (List.length (split_all "," weekday_str) -
                              List.length ds) /\
       roles r = roles iv) /\
  strtok_tokens (p1 ++ "-" ++ p2 ++ "-" ++ p3)%string "-" = [p1; p2; p3] /\
  parse_interval iv (Some s) =
  parse_interval iv (Some (p1 ++ "-" ++ p2 ++ "-" ++ p3)%string).
Proof.
  intros Htok.
  assert (Hjoin :
    strtok_tokens (p1 ++ "-" ++ p2 ++ "-" ++ p3)%string "-" = [p1; p2; p3]).
  { apply (strtok_tokens_join3 "-" s "-"%char p1 p2 p3 (p4 :: more));
      [reflexivity|exact Htok]. }
  assert (Hroom : forall weekday_str,
            (List.length (strtok_tokens weekday_str ",") <=
             S (count_char "," weekday_str))%nat).
  { intros weekday_str. rewrite <- (split_all_count "," weekday_str).
    apply strtok_tokens_length. }
  split; [|split; [|split]].
  - intros weekday_str ds start_time_str t1 end_time_str t2
      Hwd Hds Hst Ht1 Het Ht2.
    rewrite (parse_interval_parts _ _ _ _ _ _ Htok), Hwd.
    cbn [pstrdup bind].
    rewrite (parse_wdays_names _ _ _ _ Hds (Hroom weekday_str)).
    cbn [bind]. rewrite Hst. cbn [pstrdup bind]. rewrite Ht1.
    cbn [bind]. rewrite Het. cbn [pstrdup bind]. rewrite Ht2.
    cbn [bind]. now rewrite (split_all_count "," weekday_str).
  - intros r H.
    rewrite (parse_interval_parts _ _ _ _ _ _ Htok) in H.
    destruct (trimmed p1) as [wd|]; [|discriminate H].
    cbn [pstrdup bind] in H.
    destruct (parse_wdays (strtok_tokens wd ",") wd 0
                (repeat Unset (S (count_char "," wd))))
      as [ws| |] eqn:Hws; try discriminate H. cbn [bind] in H.
    destruct (parse_wdays_named _ _ _ _ _ Hws) as [ds Hds].
    rewrite (parse_wdays_names _ _ _ _ Hds (Hroom wd)) in Hws.
    inversion Hws; subst ws; clear Hws.
    destruct (trimmed p2) as [st|]; [|discriminate H].
    cbn [pstrdup bind] in H.
    destruct (parse_time Start st) as [t1| |] eqn:Ht1; try discriminate H.
    cbn [bind] in H.
    destruct (trimmed p3) as [et|]; [|discriminate H].
    cbn [pstrdup bind] in H.
    destruct (parse_time End et) as [t2| |] eqn:Ht2; try discriminate H.
    cbn [bind] in H. inversion H; subst r; clear H. cbn.
    exists wd, ds, st, et.
    rewrite (split_all_count "," wd). now repeat split.
  - exact Hjoin.
  - now rewrite (parse_interval_parts _ _ _ _ _ _ Htok),
      (parse_interval_parts _ _ _ _ _ _ Hjoin).
Qed.

(** ** The arrays are never left *)

Lemma parse_time_range b time_str t :
  parse_time b time_str = Ok t ->
  0 <= hour t <= 23 /\ 0 <= minute t <= 59.
Proof.
  unfold parse_time, atoi_int.
  destruct (strtok_tokens time_str ":") as [|ph [|pm rest]];
    try discriminate;
    destruct (atoi ph) as [h|]; try discriminate; cbn [bind];
    destruct ((h <? 0) || (h >? 23)) eqn:Hh; try discriminate.
  destruct (atoi pm) as [m|]; try discriminate; cbn [bind].
  destruct ((m <? 0) || (m >? 59)) eqn:Hm; try discriminate.
  intros H; inversion H; subst; simpl.
  apply orb_false_iff in Hh as [Hh1 Hh2], Hm as [Hm1 Hm2].
  rewrite Z.ltb_ge in Hh1, Hm1. rewrite Z.gtb_ltb, Z.ltb_ge in Hh2, Hm2.
  lia.
Qed.

(** An outcome that is visibly something else. *)
Ltac not_oob := unfold in_bounds; discriminate.

Lemma bind_in_bounds {A B : Type} (r : result A) (k : A -> result B) :
  in_bounds r -> (forall a, r = Ok a -> in_bounds (k a)) ->
  in_bounds (bind r k).
Proof.
  unfold in_bounds. destruct r as [a|e|f]; simpl; intros Hr Hk.
  - now apply Hk.
  - discriminate.
  - intros E; apply Hr; inversion E; reflexivity.
Qed.

Lemma parse_wdays_in_bounds toks weekday_str pre k :
  (List.length toks <= k)%nat ->
  in_bounds (parse_wdays toks weekday_str (List.length pre)
               (pre ++ repeat Unset k)).
Proof.
  revert pre k; induction toks as [|ptr toks IH]; intros pre k Hk;
    cbn [parse_wdays].
  - not_oob.
  - destruct (trim (Some ptr)) as [item_wd|]; [|not_oob].
    destruct (weekday_of item_wd) as [d|]; [|not_oob].
    destruct k as [|k]; [simpl in Hk; lia|].
    simpl repeat. rewrite store_at. cbn [bind].
    replace (S (List.length pre)) with (List.length (pre ++ [Val d]))
      by (rewrite length_app; simpl; lia).
    replace (pre ++ Val d :: repeat Unset k)
      with ((pre ++ [Val d]) ++ repeat Unset k)
      by (now rewrite <- app_assoc).
    apply IH. simpl in Hk; lia.
Qed.

Lemma parse_time_in_bounds b time_str : in_bounds (parse_time b time_str).
Proof.
  unfold parse_time, atoi_int, in_bounds.
  destruct (strtok_tokens time_str ":") as [|ph rest]; [not_oob|].
  destruct (atoi ph) as [h|]; [|not_oob]. cbn [bind].
  destruct ((h <? 0) || (h >? 23)); [not_oob|].
  destruct rest as [|pm rest]; [not_oob|].
  destruct (atoi pm) as [m|]; [|not_oob]. cbn [bind].
  destruct ((m <? 0) || (m >? 59)); not_oob.
Qed.

Lemma fault_in_bounds {A B : Type} f :
  in_bounds (@Fault A f) -> in_bounds (@Fault B f).
Proof.
  unfold in_bounds. intros H E. apply H. inversion E. reflexivity.
Qed.

Lemma pstrdup_in_bounds s : in_bounds (pstrdup s).
Proof. destruct s; not_oob. Qed.

Lemma parse_interval_in_bounds iv s : in_bounds (parse_interval iv s).
Proof.
  unfold parse_interval.
  apply bind_in_bounds; [apply pstrdup_in_bounds|]. intros item _.
  destruct (strtok_tokens item "-") as [|p1 [|p2 [|p3 more]]];
    try not_oob.
  apply bind_in_bounds; [apply pstrdup_in_bounds|]. intros wd _.
  apply bind_in_bounds.
  { change (in_bounds
              (parse_wdays (strtok_tokens wd ",") wd
                 (List.length (@nil (slot Z)))
                 ([] ++ repeat Unset (S (count_char "," wd))))).
    apply parse_wdays_in_bounds.
    rewrite <- (split_all_count "," wd). apply strtok_tokens_length. }
  intros ws _.
  apply bind_in_bounds; [apply pstrdup_in_bounds|]. intros st _.
  apply bind_in_bounds; [apply parse_time_in_bounds|]. intros t1 _.
  apply bind_in_bounds; [apply pstrdup_in_bounds|]. intros et _.
  apply bind_in_bounds; [apply parse_time_in_bounds|]. intros t2 _.
  not_oob.
Qed.

Lemma parse_roles_in_bounds iv s : in_bounds (parse_roles iv s).
Proof.
  destruct s as [s|]; [rewrite parse_roles_slots|]; not_oob.
Qed.

Lemma parse_each_in_bounds parse ir item :
  (forall iv s, in_bounds (parse iv s)) ->
  in_bounds (parse_each parse ir item).
Proof.
  intros Hp. revert item; induction ir as [|r ir IH]; intros item.
  - not_oob.
  - destruct item as [|s item]; [not_oob|]. simpl.
    apply bind_in_bounds; [apply Hp|]. intros r' _.
    apply bind_in_bounds; [apply IH|]. intros ir' _. not_oob.
Qed.

Lemma scan_in_bounds old intervals i bailout user_name now :
  in_bounds (snd (scan_intervals old intervals i bailout user_name now)).
Proof.
  assert (Hrole : forall rs, in_bounds (find_role rs user_name)).
  { induction rs as [|[|[role|]] rs IH]; simpl; try not_oob.
    destruct (role =? user_name)%string; [not_oob|apply IH]. }
  assert (Hfree : forall l rs j, in_bounds (free_roles l rs j)).
  { intros l; induction rs as [|[|v] rs IH]; intros j; simpl;
      try not_oob; [|apply IH].
    destruct (l j); [apply IH|not_oob]. }
  revert i bailout; induction intervals as [|r rest IH]; intros i bailout.
  - not_oob.
  - simpl. destruct bailout; [not_oob|].
    pose proof (Hfree (left_role_null old i) (roles r) 0%nat) as H3.
    destruct (find_wday (left_wday old i) (wday r) (tm_wday now) 0)
      as [j|].
    + assert (H2 : in_bounds (check_window r user_name now)).
      { unfold check_window. destruct (outside r now); [|not_oob].
        apply bind_in_bounds; [apply Hrole|].
        intros [|] _; not_oob. }
      destruct (check_window r user_name now) as [[]| |];
        try not_oob; [|exact H2].
      destruct (free_roles (left_role_null old i) (roles r) 0) as [[]| |];
        try not_oob; [|exact H3].
      specialize (IH (S i) true).
      now destruct (scan_intervals old rest (S i) true user_name now).
    + destruct (free_roles (left_role_null old i) (roles r) 0) as [[]| |];
        try not_oob; [apply IH|exact H3].
Qed.

Lemma pfree_in_bounds p : in_bounds (pfree p).
Proof. destruct p; not_oob. Qed.

(** X20: the arrays of the hook have room for what is stored into them:
    for no configuration, user and time does the hook store past the end of
    the group arrays, of a week day array or of a roles array. *)
Theorem stores_in_bounds STATUS_OK old status interval_time exclude_roles
    user_name now :
  in_bounds (block_access_checks STATUS_OK old status interval_time
               exclude_roles user_name now).
Proof.
  unfold block_access_checks.
  destruct interval_time as [it|]; [|not_oob].
  destruct (status =? STATUS_OK); [|not_oob].
  destruct exclude_roles as [er|]; [|not_oob].
  destruct (Nat.eqb_spec (S (count_char ";" it)) (S (count_char ";" er)))
    as [E|_]; [|not_oob].
  cbn [negb].
  apply bind_in_bounds; [|intros ivs _; apply scan_in_bounds].
  unfold parse_options.
  apply bind_in_bounds.
  { rewrite <- group_count_semicolons.
    destruct (trim (Some it)) as [t|] eqn:Ht.
    - now rewrite (interval_items_nonempty _ _ Ht).
    - unfold interval_items. now rewrite Ht. }
  intros item _.
  apply bind_in_bounds;
    [apply parse_each_in_bounds, parse_interval_in_bounds|].
  intros ir _.
  apply bind_in_bounds.
  { rewrite E, <- group_count_semicolons. now rewrite role_items_all. }
  intros item' _.
  apply bind_in_bounds;
    [apply parse_each_in_bounds, parse_roles_in_bounds|].
  intros ir' _.
  apply bind_in_bounds; [apply pfree_in_bounds|]. intros _ _.
  apply bind_in_bounds; [apply pfree_in_bounds|]. intros _ _.
  not_oob.
Qed.

(** ** The properties at sample inputs *)

Lemma window_verdict_witness :
  first_listing [] (rule [6] 8 0 12 0 ["alice"]) 6 /\
  verdict cleared [rule [6] 8 0 12 0 ["alice"]; rule [6] 0 0 23 59 []] "bob"
    (saturday 12 1) = Deny.
Proof.
  assert (F : first_listing [] (rule [6] 8 0 12 0 ["alice"]) 6).
  { repeat split; repeat constructor; discriminate. }
  split; [exact F|].
  destruct (window_verdict cleared "bob" (saturday 12 1) []
              (rule [6] 8 0 12 0 ["alice"]) [rule [6] 0 0 23 59 []] F)
    as [_ Hout].
  apply Hout.
  - right; reflexivity.
  - repeat constructor. now exists "alice".
  - intros [H|[]]; discriminate H.
Defined.

(** Two rules that both list Monday, the first with a window that does not
    hold 13:00 and the second with one that does: the first decides. *)
Lemma first_match_only_witness :
  evaluated cleared [rule [1] 8 0 12 0 []; rule [1] 0 0 23 59 []] "bob"
    (monday 13 0) = [(0%nat, 0%nat)] /\
  verdict cleared [rule [1] 8 0 12 0 []; rule [1] 0 0 23 59 []] "bob"
    (monday 13 0) = Deny.
Proof.
  destruct (first_match_only cleared "bob" (monday 13 0)
              [rule [1] 8 0 12 0 []; rule [1] 0 0 23 59 []])
    as (_ & Hfirst & Hrule).
  assert (E : evaluated cleared
                [rule [1] 8 0 12 0 []; rule [1] 0 0 23 59 []] "bob"
                (monday 13 0) = [(0%nat, 0%nat)]).
  { apply Hfirst. split; [split|].
    - exists (rule [1] 8 0 12 0 []), (Val 1). now repeat split.
    - intros q [Hlt|[_ Hlt]]; simpl in Hlt; lia.
    - intros i' r Hlt; simpl in Hlt; lia. }
  split; [exact E|].
  destruct (Hrule _ _ _ E eq_refl) as [Hverdict _].
  rewrite Hverdict. reflexivity.
Defined.

Lemma silent_policy_allows_witness :
  verdict cleared [rule [6] 8 0 12 0 []] "bob" (tuesday 3 0) = Allow.
Proof.
  destruct silent_policy_allows as (_ & _ & _ & H).
  apply (H cleared [rule [6] 8 0 12 0 []] "bob" (tuesday 3 0)).
  - repeat constructor; discriminate.
  - repeat constructor. intros [H'|[]]; discriminate H'.
Defined.

Lemma group_count_mismatch_witness :
  group_count "mon-08:00-18:00" <> group_count "a;b" /\
  block_access_checks 0 cleared 0 (Some "mon-08:00-18:00") (Some "a;b")
    "a" (monday 9 0) = Elog E_count_mismatch.
Proof.
  assert (N : group_count "mon-08:00-18:00" <> group_count "a;b").
  { vm_compute. intros H; discriminate H. }
  split; [exact N|].
  exact (proj1 (group_count_mismatch 0 cleared "mon-08:00-18:00" "a;b" "a"
                  (monday 9 0) N)).
Defined.

(** The interval string with an empty group in the middle: the group after
    it moves up, so the array is not the array of all groups. *)
Lemma interval_split_collapses :
  interval_items (Some "mon - 08:00 - 18:00;;sat - 08:00 - 12:00") 3 =
  Ok [Some "mon - 08:00 - 18:00"; Some "sat - 08:00 - 12:00"; None] /\
  map trimmed (split_all ";" "mon - 08:00 - 18:00;;sat - 08:00 - 12:00") =
  [Some "mon - 08:00 - 18:00"; None; Some "sat - 08:00 - 12:00"] /\
  interval_items (Some "mon - 08:00 - 18:00;;sat - 08:00 - 12:00")
    (group_count "mon - 08:00 - 18:00;;sat - 08:00 - 12:00") <>
  Ok (map trimmed
        (split_all ";" "mon - 08:00 - 18:00;;sat - 08:00 - 12:00")).
Proof.
  repeat split. vm_compute. intros H; discriminate H.
Qed.

Lemma group_arrays_witness :
  interval_items (Some " mon - 08:00 - 18:00;; ") 3 =
  Ok [Some "mon - 08:00 - 18:00"; None; None].
Proof.
  exact (proj2 group_arrays " mon - 08:00 - 18:00;; "
           "mon - 08:00 - 18:00;;" eq_refl).
Defined.

Lemma inverted_window_witness :
  minutes (start_time (rule [1] 18 0 8 0 ["alice"])) >
  minutes (end_time (rule [1] 18 0 8 0 ["alice"])) /\
  verdict cleared [rule [1] 18 0 8 0 ["alice"]] "alice" (monday 12 0) = Allow /\
  verdict cleared [rule [1] 18 0 8 0 ["alice"]] "bob" (monday 12 0) = Deny.
Proof.
  assert (I : minutes (start_time (rule [1] 18 0 8 0 ["alice"])) >
              minutes (end_time (rule [1] 18 0 8 0 ["alice"]))).
  { reflexivity. }
  split; [exact I|].
  assert (F : first_listing [] (rule [1] 18 0 8 0 ["alice"]) 1).
  { repeat split; repeat constructor; discriminate. }
  assert (N : Forall is_name (roles (rule [1] 18 0 8 0 ["alice"]))).
  { repeat constructor. now exists "alice". }
  split.
  - apply (inverted_window cleared "alice" (monday 12 0) [] _ [] I F N).
    now left.
  - apply (inverted_window cleared "bob" (monday 12 0) [] _ [] I F N).
    intros [H|[]]; discriminate H.
Defined.

Lemma time_token_checks_witness :
  parse_time Start "25:00" = Elog (E_hour_range Start 25) /\
  parse_time End "08" = Elog (E_parse_minute End "08").
Proof.
  destruct time_token_checks as (_ & Hhour & Hminute & _).
  split.
  - apply (Hhour Start "25:00" "25" ["00"] 25); [reflexivity|reflexivity|].
    right; reflexivity.
  - apply (Hminute End "08" "08" 8); [reflexivity|reflexivity|].
    split; discriminate.
Defined.

Lemma role_slots_unguarded_witness :
  find_role [Val (Some "alice"); Val None; Val (Some "bob")] "bob" =
  Fault NullDeref.
Proof.
  destruct role_slots_unguarded as (_ & _ & _ & _ & H & _).
  apply (H [Val (Some "alice")] [Val (Some "bob")] "bob").
  - repeat constructor. now exists "alice".
  - intros [H'|[]]; discriminate H'.
Defined.

Lemma nonnumeric_token_read_by_atoi_witness :
  atoi "ab" = Some 0 /\ atoi "8x" = Some 8.
Proof.
  destruct nonnumeric_token_read_by_atoi as (Hzero & Hprefix & _).
  split.
  - apply Hzero; try reflexivity; discriminate.
  - apply (Hprefix "8"%char "" "x"%char ""); reflexivity.
Defined.

Lemma extra_parts_ignored_witness :
  strtok_tokens "mon - 08:00 - 18:00 - 20:00" "-" =
  ["mon "; " 08:00 "; " 18:00 "; " 20:00"] /\
  parse_interval zeroed (Some "mon - 08:00 - 18:00 - 20:00") =
  Ok {| wday := [Val 1];
        start_time := {| hour := 8; minute := 0 |};
        end_time := {| hour := 18; minute := 0 |}; roles := [] |}.
Proof.
  split; [reflexivity|].
  destruct (extra_parts_ignored zeroed "mon - 08:00 - 18:00 - 20:00"
              "mon " " 08:00 " " 18:00 " " 20:00" [] eq_refl)
    as (H & _).
  apply (H "mon" [1] "08:00" {| hour := 8; minute := 0 |}
           "18:00" {| hour := 18; minute := 0 |});
    try reflexivity.
  repeat constructor. now exists "mon".
Defined.

(** A group of four parts whose first part is no week day: the parts after
    the third are ignored, and the group is refused for its first part. *)
Lemma extra_parts_unknown_week_day :
  strtok_tokens "mun - 08:00 - 18:00 - 20:00" "-" =
  ["mun "; " 08:00 "; " 18:00 "; " 20:00"] /\
  parse_interval zeroed (Some "mun - 08:00 - 18:00 - 20:00") =
  Elog (E_parse_week_days "mun" "mun") /\
  fails_with (parse_interval zeroed (Some "mun - 08:00 - 18:00 - 20:00"))
    UnknownWeekday.
Proof.
  split; [reflexivity|]. split; [reflexivity|].
  now exists (E_parse_week_days "mun" "mun").
Qed.

(** ** The examples of the module's comments and of the specification *)

Example trim_examples :
  trim (Some "  a  ") = Some "a" /\ trim (Some "   ") = None /\
  trim (Some "") = None /\ trim None = None.
Proof. repeat split. Qed.

Example strtok_all_drops_empty_last :
  strtok_all_tokens (Some "a;;b;") ";" = ["a"; ""; "b"] /\
  role_items (Some "a;;b;") 4 = Ok [Some "a"; None; Some "b"; None].
Proof. split; reflexivity. Qed.

(** With an empty role string [roles_str] is NULL, and the last statement
    of [parse_options] gives it to [pfree]. *)
Example minimal_rule :
  parse_options (Some "mon - 08:00 - 18:00") (Some "alice") [zeroed] 1 =
  Ok [rule [1] 8 0 18 0 ["alice"]] /\
  parse_options (Some "mon - 08:00 - 18:00") (Some "") [zeroed] 1 =
  Fault NullDeref.
Proof. split; reflexivity. Qed.

Example documented_configuration :
  parse_options
    (Some "mon,tue,wed,thu,fri - 08:00-18:00; sat - 08:00-12:00")
    (Some "foo,bar,baz ; euler, jose") [zeroed; zeroed] 2 =
  Ok [rule [1; 2; 3; 4; 5] 8 0 18 0 ["foo"; "bar"; "baz"];
      rule [6] 8 0 12 0 ["euler"; "jose"]].
Proof. reflexivity. Qed.

Example unknown_week_day :
  parse_interval zeroed (Some "mun - 08:00 - 18:00") =
  Elog (E_parse_week_days "mun" "mun").
Proof. reflexivity. Qed.

Example boundaries_are_inside :
  let check user h m :=
    block_access_checks 0 cleared 0 (Some "sat - 08:00 - 12:00")
      (Some "carol") user (saturday h m) in
  check "bob" 8 0 = Allow /\ check "bob" 12 0 = Allow /\
  check "bob" 7 59 = Deny /\ check "bob" 12 1 = Deny /\
  check "carol" 7 59 = Allow /\ check "carol" 12 1 = Allow.
Proof. repeat split. Qed.

Example first_rule_wins :
  block_access_checks 0 cleared 0
    (Some "mon - 08:00 - 12:00 ; mon - 00:00 - 23:59") (Some ";")
    "bob" (monday 13 0) = Deny /\
  evaluated cleared [rule [1] 8 0 12 0 []; rule [1] 0 0 23 59 []] "bob"
    (monday 13 0) = [(0%nat, 0%nat)].
Proof. split; reflexivity. Qed.

Example extra_part_example :
  parse_interval zeroed (Some "mon - 08:00 - 18:00 - 20:00") =
  Ok (rule [1] 8 0 18 0 []).
Proof. reflexivity. Qed.

(** * Further properties of the code *)

(** ** trim *)

Lemma skip_space_empty_iff s :
  skip_space s = EmptyString <-> all_space s = true.
Proof.
  induction s as [|c s IH]; simpl; [tauto|].
  destruct (isspace c); simpl; [exact IH|].
  split; discriminate.
Qed.

Lemma rstrip_empty_iff s : rstrip s = EmptyString <-> all_space s = true.
Proof.
  induction s as [|c s IH]; simpl; [tauto|].
  destruct (rstrip s) as [|a r].
  - destruct (isspace c); simpl.
    + split; [intros _; now apply IH|reflexivity].
    + split; discriminate.
  - split; [discriminate|].
    intros H. apply andb_true_iff in H as [_ H].
    apply IH in H. discriminate H.
Qed.

Lemma skip_space_head s c u :
  skip_space s = String c u -> isspace c = false.
Proof.
  induction s as [|d s IH]; simpl; [discriminate|].
  destruct (isspace d) eqn:Hd; [exact IH|].
  intros H; inversion H; now subst.
Qed.

Lemma trim_empty_iff s : trimmed s = None <-> all_space s = true.
Proof.
  unfold trimmed, trim.
  destruct (rstrip (skip_space s)) as [|a r] eqn:Hr.
  - split; [intros _|reflexivity].
    apply rstrip_empty_iff in Hr.
    destruct (skip_space s) as [|c u] eqn:Hs.
    + now apply skip_space_empty_iff.
    + simpl in Hr. now rewrite (skip_space_head _ _ _ Hs) in Hr.
  - split; [discriminate|]. intros H.
    apply skip_space_empty_iff in H. rewrite H in Hr. discriminate Hr.
Qed.

Lemma skip_space_prefix s :
  exists l, s = (l ++ skip_space s)%string /\ all_space l = true.
Proof.
  induction s as [|c s [l [Hl Hs]]]; simpl.
  - now exists EmptyString.
  - destruct (isspace c) eqn:Hc.
    + exists (String c l). simpl. now rewrite <- Hl, Hc.
    + now exists EmptyString.
Qed.

Lemma rstrip_suffix s :
  exists r, s = (rstrip s ++ r)%string /\ all_space r = true.
Proof.
  induction s as [|c s [r [Hr Hs]]]; simpl.
  - now exists EmptyString.
  - destruct (rstrip s) as [|a u] eqn:Hu.
    + destruct (isspace c) eqn:Hc.
      * exists (String c s). split; [reflexivity|].
        simpl. rewrite Hc. now apply rstrip_empty_iff.
      * exists r. simpl in *. split; [now f_equal|exact Hs].
    + exists r. simpl in *. split; [now f_equal|exact Hs].
Qed.

Lemma rstrip_first c u :
  isspace c = false ->
  first_char (rstrip (String c u)) = Some c.
Proof. intros Hc. simpl. destruct (rstrip u); now rewrite ?Hc. Qed.

Lemma rstrip_last s a u :
  rstrip s = String a u ->
  exists b, last_char (rstrip s) = Some b /\ isspace b = false.
Proof.
  revert a u; induction s as [|c s IH]; intros a u; simpl; [discriminate|].
  destruct (rstrip s) as [|a' u'] eqn:Hs.
  - destruct (isspace c) eqn:Hc; [discriminate|].
    intros _. now exists c.
  - intros _. destruct (IH _ _ eq_refl) as (b & Hb & Hsp).
    exists b. split; [|exact Hsp].
    change (last_char (String c (String a' u')))
      with (match last_char (String a' u') with
            | None => Some c
            | Some d => Some d
            end).
    now rewrite Hb.
Qed.

(** X1: [trim] gives NULL exactly for NULL and for a string whose
    characters are all white space, the empty string included. *)
Theorem trim_null_iff s :
  trim s = None <->
  s = None \/ exists s', s = Some s' /\ all_space s' = true.
Proof.
  destruct s as [s|].
  - change (trim (Some s)) with (trimmed s). rewrite trim_empty_iff.
    split.
    + intros H. right. now exists s.
    + intros [H|(s' & H & Hs)]; [discriminate|]. now inversion H; subst.
  - simpl. split; [now left|reflexivity].
Qed.

(** X2: what [trim] returns is the string without a run of white space at
    its front and one at its end, and it starts and ends with a character
    that is not white space. *)
Theorem trim_shape s t :
  trim (Some s) = Some t ->
  exists l r a b,
    s = (l ++ t ++ r)%string /\
    all_space l = true /\ all_space r = true /\
    first_char t = Some a /\ isspace a = false /\
    last_char t = Some b /\ isspace b = false.
Proof.
  unfold trim. intros H.
  destruct (rstrip (skip_space s)) as [|a0 u0] eqn:Hr; [discriminate|].
  inversion H; subst t; clear H.
  destruct (skip_space_prefix s) as (l & Hl & Hls).
  destruct (rstrip_suffix (skip_space s)) as (r & Hsr & Hrs).
  destruct (skip_space s) as [|c u] eqn:Hs; [discriminate Hr|].
  pose proof (skip_space_head _ _ _ Hs) as Hc.
  destruct (rstrip_last _ _ _ Hr) as (b & Hb & Hbs).
  exists l, r, c, b. rewrite <- Hr.
  repeat split; try assumption.
  - now rewrite <- Hsr.
  - now apply rstrip_first.
Qed.

(** X3: trimming twice is trimming once. *)
Theorem trim_idempotent s : trim (trim s) = trim s.
Proof.
  destruct s as [s|]; [|reflexivity].
  destruct (trim (Some s)) as [t|] eqn:Ht; [|reflexivity].
  unfold trim in Ht.
  destruct (rstrip (skip_space s)) as [|a u] eqn:Hr; [discriminate|].
  inversion Ht; subst t. rewrite <- Hr.
  change (trim (Some (rstrip (skip_space s))))
    with (trimmed (rstrip (skip_space s))).
  rewrite trimmed_rstrip, trimmed_skip_space.
  unfold trimmed, trim. now rewrite Hr.
Qed.

Lemma trim_shape_witness :
  exists l r a b,
    "  foo, bar  " = (l ++ "foo, bar" ++ r)%string /\
    all_space l = true /\ all_space r = true /\
    first_char "foo, bar" = Some a /\ isspace a = false /\
    last_char "foo, bar" = Some b /\ isspace b = false.
Proof. exact (trim_shape "  foo, bar  " "foo, bar" eq_refl). Defined.

(** ** strtok_all *)

(** X4: the calls [strtok_all(s, delims)], [strtok_all(NULL, delims)], ...
    return, up to the first NULL, every group of [s] in order, the empty
    ones between two delimiters and at the front included, but not an empty
    group at the end; started on NULL with nothing pending they return NULL
    at once.  So they return at most as many tokens as there are groups. *)
Theorem strtok_all_returns delims :
  strtok_all_tokens None delims = [] /\
  forall s,
    strtok_all_tokens (Some s) delims =
    drop_last_empty (split_all delims s) /\
    (List.length (strtok_all_tokens (Some s) delims) <=
     List.length (split_all delims s))%nat.
Proof.
  split; [reflexivity|]. intros s.
  rewrite strtok_all_tokens_groups.
  split; [reflexivity|apply drop_last_empty_length].
Qed.

(** ** parse_interval *)

Lemma weekday_of_range item d : weekday_of item = Some d -> 0 <= d <= 6.
Proof.
  unfold weekday_of.
  repeat match goal with
  | |- context [String.eqb item ?x] => destruct (String.eqb item x)
  end; intros H; inversion H; lia.
Qed.

(** X5: the number a week day name is stored as is its place in
    [week_day_names], and only the seven names, written exactly so, have
    one: the name the debug message prints for a stored day is the name that
    was parsed. *)
Theorem weekday_round_trip item d :
  weekday_of item = Some d <->
  0 <= d <= 6 /\ nth_error week_day_names (Z.to_nat d) = Some item.
Proof.
  split.
  - intros H. split; [exact (weekday_of_range _ _ H)|].
    revert H. unfold weekday_of.
    repeat match goal with
    | |- context [String.eqb item ?x] =>
        destruct (String.eqb_spec item x) as [->|_];
          [intros H; inversion H; reflexivity|]
    end.
    discriminate.
  - intros [Hd H].
    assert (Hcases : d = 0 \/ d = 1 \/ d = 2 \/ d = 3 \/ d = 4 \/ d = 5 \/
                     d = 6) by lia.
    repeat (destruct Hcases as [->|Hcases];
            [simpl in H; inversion H; reflexivity|]).
    subst d. simpl in H. inversion H. reflexivity.
Qed.

Lemma store_ok {A : Type} (a : list A) i v b :
  store a i v = Ok b ->
  List.length b = List.length a /\
  forall P : A -> Prop, Forall P a -> P v -> Forall P b.
Proof.
  revert i b; induction a as [|x a IH]; intros i b H; simpl in H.
  - discriminate.
  - destruct i as [|i].
    + inversion H; subst. split; [reflexivity|].
      intros P Ha Hv. inversion Ha; subst. now constructor.
    + destruct (store a i v) as [c| |] eqn:Hs; try discriminate.
      simpl in H. inversion H; subst.
      destruct (IH _ _ Hs) as [Hlen Hall].
      split; [simpl; now rewrite Hlen|].
      intros P Ha Hv. inversion Ha; subst. constructor; [assumption|].
      now apply Hall.
Qed.

Lemma store_no_error {A : Type} (a : list A) i v e :
  store a i v <> Elog e.
Proof.
  revert i; induction a as [|x a IH]; intros i; simpl; [discriminate|].
  destruct i as [|i]; [discriminate|].
  specialize (IH i). destruct (store a i v); simpl; try discriminate.
  intros H; inversion H; subst. now elim IH.
Qed.

Lemma parse_wdays_ok toks weekday_str i a b :
  parse_wdays toks weekday_str i a = Ok b ->
  List.length b = List.length a /\
  (Forall day_slot a -> Forall day_slot b).
Proof.
  revert i a; induction toks as [|ptr toks IH]; intros i a H;
    cbn [parse_wdays] in H.
  - inversion H; subst. now split.
  - destruct (trim (Some ptr)) as [item_wd|]; [|discriminate].
    destruct (weekday_of item_wd) as [d|] eqn:Hd; [|discriminate].
    destruct (store a i (Val d)) as [a1| |] eqn:Hs; try discriminate.
    cbn [bind] in H.
    destruct (store_ok _ _ _ _ Hs) as [Hlen Hall].
    destruct (IH _ _ H) as [Hlen2 Hall2].
    split; [now rewrite Hlen2, Hlen|].
    intros Ha. apply Hall2, Hall; [exact Ha|].
    right. exists d. split; [reflexivity|exact (weekday_of_range _ _ Hd)].
Qed.

Lemma parse_wdays_error toks weekday_str i a e :
  parse_wdays toks weekday_str i a = Elog e -> kind_of e = UnknownWeekday.
Proof.
  revert i a; induction toks as [|ptr toks IH]; intros i a H;
    cbn [parse_wdays] in H.
  - discriminate.
  - destruct (trim (Some ptr)) as [item_wd|]; [|discriminate].
    destruct (weekday_of item_wd) as [d|].
    + destruct (store a i (Val d)) as [a1|e1|f1] eqn:Hs; cbn [bind] in H.
      * exact (IH _ _ H).
      * now elim (store_no_error a i (Val d) e1).
      * discriminate.
    + inversion H; reflexivity.
Qed.

Lemma parse_time_error b time_str e :
  parse_time b time_str = Elog e ->
  kind_of e = MalformedTime \/ kind_of e = HourOutOfRange \/
  kind_of e = MinuteOutOfRange.
Proof.
  unfold parse_time, atoi_int.
  destruct (strtok_tokens time_str ":") as [|ph rest].
  - intros H; inversion H; now left.
  - destruct (atoi ph) as [h|]; [|discriminate]. cbn [bind].
    destruct ((h <? 0) || (h >? 23)).
    + intros H; inversion H; right; now left.
    + destruct rest as [|pm rest].
      * intros H; inversion H; now left.
      * destruct (atoi pm) as [m|]; [|discriminate]. cbn [bind].
        destruct ((m <? 0) || (m >? 59)); [|discriminate].
        intros H; inversion H; right; now right.
Qed.

(** The errors of [parse_interval] on a group with at least three parts. *)
Lemma parse_interval_parts_error iv s p1 p2 p3 more e :
  strtok_tokens s "-" = p1 :: p2 :: p3 :: more ->
  parse_interval iv (Some s) = Elog e ->
  kind_of e = UnknownWeekday \/ kind_of e = MalformedTime \/
  kind_of e = HourOutOfRange \/ kind_of e = MinuteOutOfRange.
Proof.
  intros Htok He.
  rewrite (parse_interval_parts _ _ _ _ _ _ Htok) in He.
  destruct (trimmed p1) as [wd|]; [|discriminate He].
  cbn [pstrdup bind] in He.
  destruct (parse_wdays (strtok_tokens wd ",") wd 0
              (repeat Unset (S (count_char "," wd))))
    as [ws|e1|f] eqn:Hws; cbn [bind] in He; [| |discriminate He].
  2:{ inversion He; subst. left. exact (parse_wdays_error _ _ _ _ _ Hws). }
  destruct (trimmed p2) as [st|]; [|discriminate He].
  cbn [pstrdup bind] in He.
  destruct (parse_time Start st) as [t1|e1|f] eqn:Ht1; cbn [bind] in He;
    [| |discriminate He].
  2:{ inversion He; subst. right. exact (parse_time_error _ _ _ Ht1). }
  destruct (trimmed p3) as [et|]; [|discriminate He].
  cbn [pstrdup bind] in He.
  destruct (parse_time End et) as [t2|e1|f] eqn:Ht2; cbn [bind] in He;
    try discriminate He.
  inversion He; subst. right. exact (parse_time_error _ _ _ Ht2).
Qed.

(** X6: [parse_interval] raises "parse week day failed" or "parse ... time
    failed", the malformed interval errors, exactly for a group with fewer
    than three pieces between dashes that are not empty; any other error of
    a group is about its week days or its times: an unknown week day, a
    time without hour or minute, an hour or a minute out of range. *)
Theorem malformed_interval_iff iv s :
  (fails_with (parse_interval iv (Some s)) MalformedInterval <->
   (List.length (filter nonempty (split_all "-" s)) < 3)%nat) /\
  (forall e,
     parse_interval iv (Some s) = Elog e ->
     kind_of e <> MalformedInterval ->
     (3 <= List.length (filter nonempty (split_all "-" s)))%nat /\
     (kind_of e = UnknownWeekday \/ kind_of e = MalformedTime \/
      kind_of e = HourOutOfRange \/ kind_of e = MinuteOutOfRange)).
Proof.
  rewrite <- strtok_tokens_groups.
  destruct (strtok_tokens s "-") as [|p1 [|p2 [|p3 more]]] eqn:Htok.
  1-3: split;
       [split; [simpl; lia|]; intros _; eexists;
        unfold parse_interval; cbn [pstrdup bind]; rewrite Htok;
        split; reflexivity
       |intros e He Hk; exfalso; unfold parse_interval in He;
        cbn [pstrdup bind] in He; rewrite Htok in He;
        inversion He; subst e; now apply Hk].
  split.
  - split; [|simpl; lia].
    intros (e & He & Hk). exfalso.
    destruct (parse_interval_parts_error _ _ _ _ _ _ _ Htok He)
      as [H|[H|[H|H]]]; rewrite H in Hk; discriminate Hk.
  - intros e He _. split; [simpl; lia|].
    exact (parse_interval_parts_error _ _ _ _ _ _ _ Htok He).
Qed.

(** X7: a rule that [parse_interval] returns has its hours within 0 .. 23
    and its minutes within 0 .. 59, so both times in minutes lie within
    0 .. 1439; its week day array has at least one element and every element
    that was stored is a day number within 0 .. 6, an index of
    [week_day_names]; and the roles of the rule are not touched. *)
Theorem parse_interval_invariant iv s r :
  parse_interval iv s = Ok r ->
  time_in_range (start_time r) /\ time_in_range (end_time r) /\
  0 <= minutes (start_time r) <= 1439 /\
  0 <= minutes (end_time r) <= 1439 /\
  wday r <> [] /\ Forall day_slot (wday r) /\
  roles r = roles iv.
Proof.
  intros H. unfold parse_interval in H.
  destruct s as [s|]; [|discriminate H]. cbn [pstrdup bind] in H.
  destruct (strtok_tokens s "-") as [|p1 [|p2 [|p3 more]]];
    try discriminate H.
  destruct (trim (Some p1)) as [wd|]; [|discriminate H].
  cbn [pstrdup bind] in H.
  destruct (parse_wdays (strtok_tokens wd ",") wd 0
              (repeat Unset (S (count_char "," wd))))
    as [ws| |] eqn:Hws; try discriminate H. cbn [bind] in H.
  destruct (trim (Some p2)) as [st|]; [|discriminate H].
  cbn [pstrdup bind] in H.
  destruct (parse_time Start st) as [t1| |] eqn:Ht1; try discriminate H.
  cbn [bind] in H.
  destruct (trim (Some p3)) as [et|]; [|discriminate H].
  cbn [pstrdup bind] in H.
  destruct (parse_time End et) as [t2| |] eqn:Ht2; try discriminate H.
  cbn [bind] in H. inversion H; subst r; clear H. cbn.
  pose proof (parse_time_range _ _ _ Ht1) as R1.
  pose proof (parse_time_range _ _ _ Ht2) as R2.
  destruct (parse_wdays_ok _ _ _ _ _ Hws) as [Hlen Hall].
  unfold time_in_range, minutes.
  repeat split; try lia.
  - intros E. rewrite E in Hlen. simpl in Hlen. discriminate Hlen.
  - apply Hall. apply Forall_forall. intros x Hx.
    apply repeat_spec in Hx. now left.
Qed.

Lemma parse_interval_invariant_witness :
  Forall day_slot
    (wday (rule [1; 3] 8 0 18 30 [])) /\
  0 <= minutes (start_time (rule [1; 3] 8 0 18 30 [])) <= 1439.
Proof.
  destruct (parse_interval_invariant zeroed
              (Some "mon, wed - 08:00 - 18:30") (rule [1; 3] 8 0 18 30 [])
              eq_refl) as (_ & _ & Hs & _ & _ & Hd & _).
  split; [exact Hd|exact Hs].
Defined.

Lemma parse_wdays_stops good ds bad rest weekday_str k :
  Forall2 names_day good ds ->
  (List.length (good ++ bad :: rest) <= k)%nat ->
  parse_wdays (good ++ bad :: rest) weekday_str 0 (repeat Unset k) =
  match trimmed bad with
  | None => Fault NullDeref
  | Some item_wd =>
      match weekday_of item_wd with
      | None => Elog (E_parse_week_days item_wd weekday_str)
      | Some d =>
          parse_wdays (bad :: rest) weekday_str (List.length ds)
            (map Val ds ++ repeat Unset (k - List.length good))
      end
  end.
Proof.
  intros Hn Hk. rewrite length_app in Hk.
  pose proof (parse_wdays_prefix good ds (bad :: rest) weekday_str [] k Hn Hk)
    as H.
  cbn [app List.length] in H. rewrite H, length_map.
  cbn [parse_wdays]. unfold trimmed.
  destruct (trim (Some bad)) as [item_wd|]; [|reflexivity].
  now destruct (weekday_of item_wd).
Qed.

(** X8: a group of at least three parts whose week day tokens are all names,
    and whose start and end time are accepted, gives the rule with these
    times and with the days in the order written, one array element for each
    token; the elements that remain, one for each empty position between
    the commas of the week day list, are left unset. *)
Theorem parse_interval_accepts iv s p1 p2 p3 more
    weekday_str ds start_time_str t1 end_time_str t2 :
  strtok_tokens s "-" = p1 :: p2 :: p3 :: more ->
  trimmed p1 = Some weekday_str ->
  Forall2 names_day (strtok_tokens weekday_str ",") ds ->
  trimmed p2 = Some start_time_str ->
  parse_time Start start_time_str = Ok t1 ->
  trimmed p3 = Some end_time_str ->
  parse_time End end_time_str = Ok t2 ->
  parse_interval iv (Some s) =
  Ok {| wday := map Val ds ++
                repeat Unset (List.length (split_all "," weekday_str) -
                              List.length ds);
        start_time := t1; end_time := t2; roles := roles iv |}.
Proof.
  intros Htok Hwd Hds Hst Ht1 Het Ht2.
  rewrite (parse_interval_parts _ _ _ _ _ _ Htok), Hwd.
  cbn [pstrdup bind].
  rewrite (parse_wdays_names _ _ _ _ Hds).
  2:{ rewrite <- (split_all_count "," weekday_str).
      apply strtok_tokens_length. }
  cbn [bind]. rewrite Hst. cbn [pstrdup bind]. rewrite Ht1.
  cbn [bind]. rewrite Het. cbn [pstrdup bind]. rewrite Ht2.
  cbn [bind]. now rewrite (split_all_count "," weekday_str).
Qed.

Lemma parse_interval_accepts_witness :
  parse_interval zeroed (Some "mon,,fri - 8:5 - 18:00") =
  Ok {| wday := [Val 1; Val 5; Unset];
        start_time := {| hour := 8; minute := 5 |};
        end_time := {| hour := 18; minute := 0 |}; roles := [] |}.
Proof.
  apply (parse_interval_accepts zeroed "mon,,fri - 8:5 - 18:00"
           "mon,,fri " " 8:5 " " 18:00" [] "mon,,fri" [1; 5]
           "8:5" {| hour := 8; minute := 5 |}
           "18:00" {| hour := 18; minute := 0 |});
    try reflexivity.
  repeat constructor.
  - now exists "mon".
  - now exists "fri".
Defined.

(** X9: in a group of at least three parts, the first week day token that
    is not a name stops the parse: a token that is all white space is a NULL
    given to [strcmp]; any other is the error "parse week days failed" with
    the trimmed token and the trimmed week day list.  The names are compared
    as written: another case is another token. *)
Theorem first_bad_week_day iv s p1 p2 p3 more weekday_str good ds bad rest :
  strtok_tokens s "-" = p1 :: p2 :: p3 :: more ->
  trimmed p1 = Some weekday_str ->
  strtok_tokens weekday_str "," = good ++ bad :: rest ->
  Forall2 names_day good ds ->
  (trimmed bad = None ->
   parse_interval iv (Some s) = Fault NullDeref) /\
  (forall item_wd,
     trimmed bad = Some item_wd -> weekday_of item_wd = None ->
     parse_interval iv (Some s) =
     Elog (E_parse_week_days item_wd weekday_str) /\
     fails_with (parse_interval iv (Some s)) UnknownWeekday).
Proof.
  intros Htok Hwd Hsplit Hgood.
  assert (E : parse_interval iv (Some s) =
              (wday <- match trimmed bad with
                       | None => Fault NullDeref
                       | Some item_wd =>
                           match weekday_of item_wd with
                           | None =>
                               Elog (E_parse_week_days item_wd weekday_str)
                           | Some d =>
                               parse_wdays (bad :: rest) weekday_str
                                 (List.length ds)
                                 (map Val ds ++
                                  repeat Unset
                                    (S (count_char "," weekday_str) -
                                     List.length good))
                           end
                       end ;;
               item <- pstrdup (trimmed p2) ;;
               start_time <- parse_time Start item ;;
               item <- pstrdup (trimmed p3) ;;
               end_time <- parse_time End item ;;
               Ok {| wday := wday; start_time := start_time;
                     end_time := end_time; roles := roles iv |})).
  { rewrite (parse_interval_parts _ _ _ _ _ _ Htok), Hwd.
    cbn [pstrdup bind]. rewrite Hsplit.
    rewrite (parse_wdays_stops _ _ _ _ _ _ Hgood); [reflexivity|].
    rewrite <- Hsplit, <- (split_all_count "," weekday_str).
    apply strtok_tokens_length. }
  split.
  - intros Hnull. now rewrite E, Hnull.
  - intros item_wd Hsome Hnone.
    assert (E2 : parse_interval iv (Some s) =
                 Elog (E_parse_week_days item_wd weekday_str))
      by now rewrite E, Hsome, Hnone.
    split; [exact E2|]. rewrite E2. now eexists.
Qed.

Lemma first_bad_week_day_witness :
  parse_interval zeroed (Some "mon, Tue - 08:00 - 18:00") =
  Elog (E_parse_week_days "Tue" "mon, Tue") /\
  parse_interval zeroed (Some "mon, ,tue - 08:00 - 18:00") =
  Fault NullDeref.
Proof.
  split.
  - apply (first_bad_week_day zeroed "mon, Tue - 08:00 - 18:00"
             "mon, Tue " " 08:00 " " 18:00" [] "mon, Tue"
             ["mon"] [1] " Tue" []); try reflexivity.
    repeat constructor. now exists "mon".
  - apply (first_bad_week_day zeroed "mon, ,tue - 08:00 - 18:00"
             "mon, ,tue " " 08:00 " " 18:00" [] "mon, ,tue"
             ["mon"] [1] " " ["tue"]); try reflexivity.
    repeat constructor. now exists "mon".
Defined.

(** ** parse_roles *)

(** X10: [parse_roles] raises no error and touches only the roles.  For a
    NULL group the array is empty.  Otherwise it has one element for each
    position between the commas of the group: the pieces that are not empty
    are stored from the front, each trimmed (NULL when it is all white
    space), and one element is left unset at the end for each empty piece. *)
Theorem parse_roles_total iv s :
  exists r,
    parse_roles iv s = Ok r /\
    wday r = wday iv /\ start_time r = start_time iv /\
    end_time r = end_time iv /\
    roles r =
    match s with
    | None => []
    | Some g =>
        map (fun p => Val (trimmed p)) (filter nonempty (split_all "," g)) ++
        repeat Unset
          (List.length (split_all "," g) -
           List.length (filter nonempty (split_all "," g)))
    end.
Proof.
  destruct s as [g|].
  - rewrite parse_roles_slots, strtok_tokens_groups.
    eexists. split; [reflexivity|]. cbn [wday start_time end_time roles].
    repeat split.
  - eexists. split; [reflexivity|]. cbn [wday start_time end_time roles].
    repeat split.
Qed.

Lemma clean_roles iv g :
  Forall (fun p => trimmed p <> None) (split_all "," g) ->
  parse_roles iv (Some g) =
  Ok {| wday := wday iv; start_time := start_time iv;
        end_time := end_time iv;
        roles := map (fun p => Val (trimmed p)) (split_all "," g) |}.
Proof.
  intros Hall. rewrite parse_roles_slots, strtok_tokens_groups.
  now rewrite (named_groups_nonempty _ Hall), Nat.sub_diag, app_nil_r.
Qed.

(** X11: for a role group with a name at every position between its commas,
    the scan of the stored array finds the user exactly when the user name
    is one of the pieces of the group, trimmed; and the array of a NULL group
    holds nobody. *)
Theorem role_group_lookup iv g user_name :
  Forall (fun p => trimmed p <> None) (split_all "," g) ->
  (forall r, parse_roles iv None = Ok r ->
             find_role (roles r) user_name = Ok false) /\
  exists r,
    parse_roles iv (Some g) = Ok r /\
    Forall is_name (roles r) /\
    ((exists p, In p (split_all "," g) /\ trimmed p = Some user_name) ->
     find_role (roles r) user_name = Ok true) /\
    (~ (exists p, In p (split_all "," g) /\ trimmed p = Some user_name) ->
     find_role (roles r) user_name = Ok false).
Proof.
  intros Hall. split.
  - intros r H. inversion H; subst. reflexivity.
  - eexists. split; [apply (clean_roles _ _ Hall)|]. cbn [roles].
    assert (Hnames :
      Forall is_name (map (fun p => Val (trimmed p)) (split_all "," g))).
    { clear -Hall. induction Hall as [|p ps Hp _ IH]; simpl;
        constructor; [|exact IH].
      destruct (trimmed p) as [name|]; [now exists name|now elim Hp]. }
    split; [exact Hnames|].
    destruct (find_role_names user_name _ Hnames) as [Hin Hout].
    split.
    + intros (p & Hp & Htrim). apply Hin.
      apply in_map_iff. exists p. now rewrite Htrim.
    + intros Hnone. apply Hout. intros Hin'.
      apply in_map_iff in Hin' as (p & Heq & Hp).
      apply Hnone. exists p. split; [exact Hp|]. now inversion Heq.
Qed.

Lemma role_group_lookup_witness :
  exists r,
    parse_roles zeroed (Some "foo, bar ,baz") = Ok r /\
    find_role (roles r) "bar" = Ok true /\
    find_role (roles r) "ba" = Ok false.
Proof.
  assert (Hall : Forall (fun p => trimmed p <> None)
                   (split_all "," "foo, bar ,baz")).
  { repeat constructor; discriminate. }
  destruct (role_group_lookup zeroed "foo, bar ,baz" "bar" Hall)
    as (_ & r & Hr & _ & Hyes & _).
  destruct (role_group_lookup zeroed "foo, bar ,baz" "ba" Hall)
    as (_ & r' & Hr' & _ & _ & Hno).
  rewrite Hr in Hr'. inversion Hr'; subst r'.
  exists r. split; [exact Hr|]. split.
  - apply Hyes. exists " bar ". split; [simpl; tauto|reflexivity].
  - apply Hno. intros (p & Hp & Htrim).
    simpl in Hp. destruct Hp as [<-|[<-|[<-|[]]]]; discriminate Htrim.
Defined.

(** ** parse_options *)

Lemma pad_length {A : Type} n (l : list (option A)) :
  (List.length l <= n)%nat -> List.length (pad n l) = n.
Proof. intros H. unfold pad. rewrite length_app, repeat_length. lia. Qed.

Lemma filter_drops {A : Type} (f : A -> bool) l x :
  In x l -> f x = false ->
  (List.length (filter f l) < List.length l)%nat.
Proof.
  induction l as [|y l IH]; intros Hin Hx; [destruct Hin|].
  simpl. destruct Hin as [->|Hin].
  - rewrite Hx. pose proof (filter_length_le f l). lia.
  - specialize (IH Hin Hx). destruct (f y); simpl; lia.
Qed.

Lemma trimmed_groups_length interval_time :
  List.length (split_all ";" (rstrip (skip_space interval_time))) =
  group_count interval_time.
Proof.
  unfold group_count.
  rewrite <- (length_map trimmed),
    (split_all_trimmed ";" semicolon_not_space).
  apply length_map.
Qed.

(** The group array of the interval string, by whether a group is blank. *)
Lemma interval_items_cases interval_time t :
  trim (Some interval_time) = Some t ->
  (Forall (fun g => trimmed g <> None) (split_all ";" interval_time) ->
   interval_items (Some interval_time) (group_count interval_time) =
   Ok (map trimmed (split_all ";" interval_time))) /\
  (Exists (fun g => trimmed g = None) (split_all ";" interval_time) ->
   exists item,
     interval_items (Some interval_time) (group_count interval_time) =
     Ok item /\
     In None item /\ List.length item = group_count interval_time).
Proof.
  intros Ht. rewrite (interval_items_nonempty _ _ Ht).
  assert (Et : t = rstrip (skip_space interval_time)).
  { unfold trim in Ht. destruct (rstrip (skip_space interval_time));
      [discriminate|now inversion Ht]. }
  pose proof (split_all_trimmed ";" semicolon_not_space interval_time)
    as Hmap.
  pose proof (trimmed_groups_length interval_time) as Hlen.
  rewrite <- Et in Hmap, Hlen.
  split.
  - intros Hall.
    assert (Hall' : Forall (fun g => trimmed g <> None) (split_all ";" t)).
    { apply Forall_forall. intros g Hg Hnone.
      assert (Hin : In None (map trimmed (split_all ";" interval_time))).
      { rewrite <- Hmap. apply in_map_iff. now exists g. }
      apply in_map_iff in Hin as (g' & Hg' & Hin').
      rewrite Forall_forall in Hall. exact (Hall g' Hin' Hg'). }
    rewrite (named_groups_nonempty _ Hall'), Hmap.
    unfold pad. rewrite length_map.
    unfold group_count. now rewrite Nat.sub_diag, app_nil_r.
  - intros Hex. eexists. split; [reflexivity|].
    split.
    2:{ apply pad_length. rewrite length_map, <- Hlen.
        apply filter_length_le. }
    apply Exists_exists in Hex as (g' & Hin' & Hg').
    assert (Hin : In None (map trimmed (split_all ";" t))).
    { rewrite Hmap. apply in_map_iff. now exists g'. }
    apply in_map_iff in Hin as (g & Hg & Hin).
    unfold pad. apply in_or_app.
    destruct (nonempty g) eqn:Hne.
    + left. apply in_map_iff. exists g. split; [exact Hg|].
      apply filter_In. now split.
    + right. rewrite length_map.
      pose proof (filter_drops nonempty _ _ Hin Hne) as Hlt.
      rewrite Hlen in Hlt.
      destruct (group_count interval_time -
                List.length (filter nonempty (split_all ";" t)))%nat
        eqn:Hk; [lia|]. now left.
Qed.

Lemma parse_each_null ir item :
  (List.length item <= List.length ir)%nat -> In None item ->
  forall rules, parse_each parse_interval ir item <> Ok rules.
Proof.
  revert item; induction ir as [|r ir IH]; intros item Hlen Hin rules.
  - destruct item; [destruct Hin|simpl in Hlen; lia].
  - destruct item as [|s item]; [destruct Hin|].
    simpl. destruct Hin as [->|Hin]; [discriminate|].
    destruct (parse_interval r s) as [r1| |]; try discriminate.
    cbn [bind].
    destruct (parse_each parse_interval ir item) as [out| |] eqn:Hout;
      try discriminate.
    intros _. apply (IH item) with (rules := out);
      [simpl in Hlen; lia|exact Hin|exact Hout].
Qed.

Lemma parse_each_nth parse ir item out :
  parse_each parse ir item = Ok out ->
  List.length ir = List.length item ->
  List.length out = List.length ir /\
  forall i r s,
    nth_error ir i = Some r -> nth_error item i = Some s ->
    exists r1, parse r s = Ok r1 /\ nth_error out i = Some r1.
Proof.
  revert item out; induction ir as [|r0 ir IH]; intros item out H Hlen.
  - destruct item; [|discriminate Hlen]. inversion H; subst.
    split; [reflexivity|]. intros [|i] r s Hr; discriminate Hr.
  - destruct item as [|s0 item]; [discriminate Hlen|].
    simpl in H.
    destruct (parse r0 s0) as [r1| |] eqn:Hp; try discriminate H.
    cbn [bind] in H.
    destruct (parse_each parse ir item) as [out1| |] eqn:Hrest;
      try discriminate H.
    cbn [bind] in H. inversion H; subst out.
    destruct (IH _ _ Hrest) as [Hl Hn]; [simpl in Hlen; lia|].
    split; [simpl; now rewrite Hl|].
    intros [|i] r s Hr Hs; simpl in Hr, Hs.
    + inversion Hr; inversion Hs; subst. now exists r1.
    + exact (Hn i r s Hr Hs).
Qed.

Lemma bind_ok {A B : Type} (r : result A) (k : A -> result B) b :
  bind r k = Ok b -> exists a, r = Ok a /\ k a = Ok b.
Proof. destruct r as [a| |]; simpl; try discriminate. now exists a. Qed.

(** X12: an interval string with a group that is empty or all white space
    is never accepted: whatever the other groups and the role string are,
    [parse_options] does not return a policy (it ends in a parse error of an
    earlier group or in [pstrdup(NULL)]). *)
Theorem blank_interval_group_refused interval_time exclude_roles :
  Exists (fun g => trimmed g = None) (split_all ";" interval_time) ->
  forall rules,
    parse_options (Some interval_time) exclude_roles
      (repeat zeroed (group_count interval_time))
      (group_count interval_time) <> Ok rules.
Proof.
  intros Hex rules H. unfold parse_options in H.
  apply bind_ok in H as (item & Hitem & H).
  apply bind_ok in H as (ir & Hir & _).
  destruct (trim (Some interval_time)) as [t|] eqn:Ht.
  - destruct (proj2 (interval_items_cases _ _ Ht) Hex)
      as (item' & Hitem' & Hnull & Hlen).
    rewrite Hitem in Hitem'. inversion Hitem'; subst item'.
    apply (parse_each_null (repeat zeroed (group_count interval_time))
             item) with (rules := ir);
      [rewrite repeat_length; lia|exact Hnull|exact Hir].
  - unfold interval_items in Hitem. rewrite Ht in Hitem.
    discriminate Hitem.
Qed.

Lemma blank_interval_group_refused_witness :
  Exists (fun g => trimmed g = None)
    (split_all ";" "mon - 08:00 - 18:00; ;sat - 08:00 - 12:00") /\
  forall rules,
    parse_options (Some "mon - 08:00 - 18:00; ;sat - 08:00 - 12:00")
      (Some ";;")
      (repeat zeroed
         (group_count "mon - 08:00 - 18:00; ;sat - 08:00 - 12:00"))
      (group_count "mon - 08:00 - 18:00; ;sat - 08:00 - 12:00") <>
    Ok rules.
Proof.
  assert (Hex : Exists (fun g => trimmed g = None)
                  (split_all ";"
                     "mon - 08:00 - 18:00; ;sat - 08:00 - 12:00")).
  { assert (E : split_all ";" "mon - 08:00 - 18:00; ;sat - 08:00 - 12:00" =
                ["mon - 08:00 - 18:00"; " "; "sat - 08:00 - 12:00"])
      by (vm_compute; reflexivity).
    rewrite E. apply Exists_cons_tl, Exists_cons_hd. reflexivity. }
  split; [exact Hex|].
  exact (blank_interval_group_refused
           "mon - 08:00 - 18:00; ;sat - 08:00 - 12:00" (Some ";;") Hex).
Defined.

Lemma no_blank_group_dec gs :
  Forall (fun g => trimmed g <> None) gs \/
  Exists (fun g => trimmed g = None) gs.
Proof.
  induction gs as [|g gs [IH|IH]].
  - left. constructor.
  - destruct (trimmed g) as [t|] eqn:Hg.
    + left. constructor; [now rewrite Hg|exact IH].
    + right. now apply Exists_cons_hd.
  - right. now apply Exists_cons_tl.
Qed.

(** X13: when [parse_options] returns a policy for an interval string and a
    role string with the same number of groups, the policy has one rule for
    each group, and rule [i] is what [parse_interval] makes of interval group
    [i], trimmed, with the roles that [parse_roles] makes of role group
    [i], trimmed: the pairing is by position. *)
Theorem parse_options_pairs interval_time exclude_roles rules :
  group_count interval_time = group_count exclude_roles ->
  parse_options (Some interval_time) (Some exclude_roles)
    (repeat zeroed (group_count interval_time))
    (group_count interval_time) = Ok rules ->
  List.length rules = group_count interval_time /\
  forall i ig rg,
    nth_error (split_all ";" interval_time) i = Some ig ->
    nth_error (split_all ";" exclude_roles) i = Some rg ->
    exists r0 r,
      parse_interval zeroed (trimmed ig) = Ok r0 /\
      parse_roles r0 (trimmed rg) = Ok r /\
      nth_error rules i = Some r.
Proof.
  intros Hcount H. unfold parse_options in H.
  apply bind_ok in H as (item1 & Hitem1 & H).
  apply bind_ok in H as (ir & Hir & H).
  apply bind_ok in H as (item2 & Hitem2 & H).
  apply bind_ok in H as (ir2 & H & Hfree).
  apply bind_ok in Hfree as (? & _ & Hfree).
  apply bind_ok in Hfree as (? & _ & Hfree).
  inversion Hfree; subst ir2; clear Hfree.
  rewrite Hcount, role_items_all in Hitem2.
  inversion Hitem2; subst item2; clear Hitem2.
  destruct (trim (Some interval_time)) as [t|] eqn:Ht.
  2:{ unfold interval_items in Hitem1. rewrite Ht in Hitem1.
      discriminate Hitem1. }
  destruct (interval_items_cases _ _ Ht) as [Hclean Hblank].
  destruct (no_blank_group_dec (split_all ";" interval_time))
    as [Hall|Hex].
  2:{ destruct (Hblank Hex) as (item & Hitem & Hnull & Hlen).
      rewrite Hitem1 in Hitem. inversion Hitem; subst item.
      exfalso.
      apply (parse_each_null (repeat zeroed (group_count interval_time))
               item1) with (rules := ir);
        [rewrite repeat_length; lia|exact Hnull|exact Hir]. }
  rewrite (Hclean Hall) in Hitem1.
  inversion Hitem1; subst item1; clear Hitem1.
  destruct (parse_each_nth _ _ _ _ Hir) as [Hlen1 Hnth1].
  { now rewrite repeat_length, length_map. }
  destruct (parse_each_nth _ _ _ _ H) as [Hlen2 Hnth2].
  { rewrite Hlen1, repeat_length, length_map. exact Hcount. }
  rewrite repeat_length in Hlen1.
  split; [now rewrite Hlen2, Hlen1|].
  intros i ig rg Hig Hrg.
  assert (Hi : (i < group_count interval_time)%nat).
  { unfold group_count. apply nth_error_Some. now rewrite Hig. }
  destruct (Hnth1 i zeroed (trimmed ig)) as (r0 & Hr0 & Hn0).
  { now apply nth_error_repeat. }
  { now apply map_nth_error. }
  destruct (Hnth2 i r0 (trimmed rg) Hn0) as (r & Hr & Hn).
  { now apply map_nth_error. }
  now exists r0, r.
Qed.

Lemma parse_options_pairs_witness :
  exists r0 r,
    parse_interval zeroed (trimmed " sat - 08:00-12:00") = Ok r0 /\
    parse_roles r0 (trimmed " euler, jose") = Ok r /\
    nth_error
      [rule [1; 2; 3; 4; 5] 8 0 18 0 ["foo"; "bar"; "baz"];
       rule [6] 8 0 12 0 ["euler"; "jose"]] 1 = Some r.
Proof.
  apply (proj2 (parse_options_pairs
                  "mon,tue,wed,thu,fri - 08:00-18:00; sat - 08:00-12:00"
                  "foo,bar,baz ; euler, jose" _ eq_refl eq_refl) 1%nat);
    reflexivity.
Defined.

(** ** block_access_checks *)

Lemma find_role_false rs user_name :
  find_role rs user_name = Ok false -> ~ In (Val (Some user_name)) rs.
Proof.
  induction rs as [|[|[role|]] rs IH]; simpl; try discriminate.
  - intros _ [].
  - destruct (String.eqb_spec role user_name) as [->|Hne]; [discriminate|].
    intros H [Heq|Hin]; [|exact (IH H Hin)].
    inversion Heq; subst. now elim Hne.
Qed.

Lemma free_roles_no_error l rs j e : free_roles l rs j <> Elog e.
Proof.
  revert j; induction rs as [|[|v] rs IH]; intros j; simpl;
    try discriminate; [|apply IH].
  destruct (l j); [apply IH|discriminate].
Qed.

Lemma find_role_no_error rs user_name e : find_role rs user_name <> Elog e.
Proof.
  induction rs as [|[|[role|]] rs IH]; simpl; try discriminate.
  destruct (role =? user_name)%string; [discriminate|exact IH].
Qed.

Lemma check_window_error r user_name now e :
  check_window r user_name now = Elog e ->
  e = E_access_denied /\ outside r now = true /\ ~ excludes r user_name.
Proof.
  unfold check_window, excludes.
  destruct (outside r now); [|discriminate].
  destruct (find_role (roles r) user_name) as [[|]|e1|f1] eqn:Hf;
    simpl; try discriminate.
  - intros H; inversion H; subst.
    repeat split. now apply find_role_false.
  - now elim (find_role_no_error (roles r) user_name e1).
Qed.

(** An error of the evaluation loop is the refusal, on a rule in which an
    element compares equal to the day, at a time outside its window, of a
    user it does not hold. *)
Lemma scan_error old intervals i0 user_name now e :
  snd (scan_intervals old intervals i0 false user_name now) = Elog e ->
  e = E_access_denied /\
  exists k j r s,
    fst (scan_intervals old intervals i0 false user_name now) =
    [((i0 + k)%nat, j)] /\
    nth_error intervals k = Some r /\
    nth_error (wday r) j = Some s /\
    read_wday (left_wday old (i0 + k)) j s = tm_wday now /\
    outside r now = true /\ ~ excludes r user_name.
Proof.
  revert i0; induction intervals as [|r rest IH]; intros i0;
    [discriminate|].
  cbn [scan_intervals].
  destruct (find_wday (left_wday old i0) (wday r) (tm_wday now) 0)
    as [j|] eqn:Hfind.
  - destruct (find_wday_found _ _ _ _ _ Hfind)
      as (j' & s & Hj & Hnth & Hread & _).
    simpl in Hj; subst j'.
    destruct (check_window r user_name now) as [[]|e1|f1] eqn:Hc.
    + destruct (free_roles (left_role_null old i0) (roles r) 0)
        as [[]|e1|f1] eqn:Hfree.
      * rewrite scan_bailout. discriminate.
      * now elim (free_roles_no_error _ _ _ _ Hfree).
      * discriminate.
    + simpl. intros H; inversion H; subst e1.
      destruct (check_window_error _ _ _ _ Hc) as (-> & Hout & Hno).
      split; [reflexivity|].
      exists O, j, r, s. rewrite Nat.add_0_r. now repeat split.
    + discriminate.
  - destruct (free_roles (left_role_null old i0) (roles r) 0)
      as [[]|e1|f1] eqn:Hfree.
    + intros H.
      destruct (IH _ H) as (-> & k & j & r1 & s & Hs & Hk & Hrest).
      split; [reflexivity|].
      exists (S k), j, r1, s. rewrite Hs.
      replace (i0 + S k)%nat with (S i0 + k)%nat by lia.
      split; [reflexivity|]. now split.
    + now elim (free_roles_no_error _ _ _ _ Hfree).
    + discriminate.
Qed.

Lemma store_items_no_error toks i item e : store_items toks i item <> Elog e.
Proof.
  revert i item; induction toks as [|ptr toks IH]; intros i item;
    cbn [store_items]; [discriminate|].
  pose proof (store_no_error item i (trim (Some ptr)) e) as Hs.
  destruct (store item i (trim (Some ptr))) as [a|e1|f1]; cbn [bind].
  - apply IH.
  - exact Hs.
  - discriminate.
Qed.

Lemma parse_interval_error iv s e :
  parse_interval iv s = Elog e -> kind_of e <> AccessDenied.
Proof.
  destruct s as [s|]; [|discriminate].
  intros H Hk.
  destruct (strtok_tokens s "-") as [|p1 [|p2 [|p3 more]]] eqn:Htok.
  1-3: unfold parse_interval in H; cbn [pstrdup bind] in H;
       rewrite Htok in H; inversion H; subst; discriminate Hk.
  destruct (parse_interval_parts_error _ _ _ _ _ _ _ Htok H)
    as [E|[E|[E|E]]]; rewrite E in Hk; discriminate Hk.
Qed.

Lemma parse_each_error parse ir item e :
  parse_each parse ir item = Elog e ->
  exists r s, parse r s = Elog e.
Proof.
  revert item; induction ir as [|r ir IH]; intros item; [discriminate|].
  destruct item as [|s item]; [discriminate|]. simpl.
  destruct (parse r s) as [r1|e1|f1] eqn:Hp; cbn [bind];
    [|intros H; inversion H; subst; now exists r, s|discriminate].
  destruct (parse_each parse ir item) as [out|e1|f1] eqn:Hrest; cbn [bind];
    [discriminate| |discriminate].
  intros H; inversion H; subst. exact (IH _ Hrest).
Qed.

Lemma parse_options_error interval_time exclude_roles ir n e :
  parse_options interval_time exclude_roles ir n = Elog e ->
  kind_of e <> AccessDenied.
Proof.
  unfold parse_options. destruct interval_time as [it|]; [|discriminate].
  unfold interval_items, role_items.
  destruct (trim (Some it)) as [t|]; [|discriminate].
  pose proof (store_items_no_error (strtok_tokens t ";") 0
                (repeat None n) e) as H1.
  destruct (store_items (strtok_tokens t ";") 0 (repeat None n))
    as [item1|e1|f1]; cbn [bind];
    [|intros H; inversion H; subst; now elim H1|discriminate].
  destruct (parse_each parse_interval ir item1) as [ir1|e1|f1] eqn:Hir;
    cbn [bind]; [| |discriminate].
  2:{ intros H; inversion H; subst.
      destruct (parse_each_error _ _ _ _ Hir) as (r & s & Hp).
      exact (parse_interval_error _ _ _ Hp). }
  pose proof (store_items_no_error
                (strtok_all_tokens (trim exclude_roles) ";") 0
                (repeat None n) e) as H2.
  destruct (store_items (strtok_all_tokens (trim exclude_roles) ";") 0
              (repeat None n)) as [item2|e1|f1]; cbn [bind];
    [|intros H; inversion H; subst; now elim H2|discriminate].
  destruct (parse_each parse_roles ir1 item2) as [ir2|e1|f1] eqn:Hir2;
    cbn [bind]; [| |discriminate].
  - destruct (trim exclude_roles); discriminate.
  - intros H; inversion H; subst.
    destruct (parse_each_error _ _ _ _ Hir2) as (r & s & Hp).
    destruct s as [g|]; [rewrite parse_roles_slots in Hp|];
      discriminate Hp.
Qed.

(** X14: the hook refuses a login only when all of this holds: the status
    is [STATUS_OK], both strings are set and have the same number of groups,
    the strings parse to a policy, and the one pair the loop evaluates is an
    element of the week day array of a rule that compares equal to the
    current week day (a stored day or, in an element nobody stored into, the
    [int] that memory held), with the current time before the start or after
    the end of that rule and the user name not among its roles.  A parse
    error is never the refusal. *)
Theorem deny_is_justified STATUS_OK old status interval_time exclude_roles
    user_name now :
  block_access_checks STATUS_OK old status interval_time exclude_roles
    user_name now = Deny ->
  status = STATUS_OK /\
  exists it er rules i j r s,
    interval_time = Some it /\ exclude_roles = Some er /\
    group_count it = group_count er /\
    parse_options interval_time exclude_roles
      (repeat zeroed (group_count it)) (group_count it) = Ok rules /\
    evaluated old rules user_name now = [(i, j)] /\
    nth_error rules i = Some r /\
    nth_error (wday r) j = Some s /\
    read_wday (left_wday old i) j s = tm_wday now /\
    (now_minutes now < minutes (start_time r) \/
     now_minutes now > minutes (end_time r)) /\
    ~ excludes r user_name.
Proof.
  unfold block_access_checks, Deny.
  destruct interval_time as [it|]; [|discriminate].
  destruct (Z.eqb_spec status STATUS_OK) as [->|_]; [|discriminate].
  destruct exclude_roles as [er|]; [|discriminate].
  rewrite <- !group_count_semicolons.
  destruct (Nat.eqb_spec (group_count it) (group_count er)) as [Hc|_];
    [|discriminate].
  cbn [negb].
  destruct (parse_options (Some it) (Some er)
              (repeat zeroed (group_count it)) (group_count it))
    as [rules|e|f] eqn:Hparse; cbn [bind]; [| |discriminate].
  - intros H. destruct (scan_error _ _ _ _ _ _ H)
      as (_ & k & j & r & s & Hseen & Hk & Hj & Hread & Hout & Hno).
    split; [reflexivity|].
    exists it, er, rules, k, j, r, s.
    repeat split; try assumption.
    now apply outside_iff.
  - intros H. inversion H; subst.
    now elim (parse_options_error _ _ _ _ _ Hparse).
Qed.

(** The week day list [mon,] has two positions and one name: on a Sunday,
    in memory that held zeros, the second element compares equal to the
    day. *)
Lemma deny_is_justified_witness :
  block_access_checks 0 cleared 0 (Some "mon, - 08:00 - 18:00")
    (Some "carol") "bob" (sunday 19 0) = Deny /\
  exists it er rules i j r s,
    Some "mon, - 08:00 - 18:00" = Some it /\ Some "carol" = Some er /\
    group_count it = group_count er /\
    parse_options (Some "mon, - 08:00 - 18:00") (Some "carol")
      (repeat zeroed (group_count it)) (group_count it) = Ok rules /\
    evaluated cleared rules "bob" (sunday 19 0) = [(i, j)] /\
    nth_error rules i = Some r /\
    nth_error (wday r) j = Some s /\
    read_wday (left_wday cleared i) j s = tm_wday (sunday 19 0) /\
    (now_minutes (sunday 19 0) < minutes (start_time r) \/
     now_minutes (sunday 19 0) > minutes (end_time r)) /\
    ~ excludes r "bob".
Proof.
  split; [reflexivity|].
  exact (proj2 (deny_is_justified 0 cleared 0 (Some "mon, - 08:00 - 18:00")
                  (Some "carol") "bob" (sunday 19 0) eq_refl)).
Defined.

Lemma all_space_no_semicolon s :
  all_space s = true -> count_char ";" s = O.
Proof.
  induction s as [|c s IH]; simpl; [reflexivity|].
  intros H. apply andb_true_iff in H as [Hc Hs].
  pose proof (semicolon_not_space c Hc) as Hm. simpl in Hm.
  rewrite orb_false_r in Hm. now rewrite Hm, IH.
Qed.

(** X15: two configurations that end a login with status [STATUS_OK]
    without a verdict.  With the interval string set and the role string
    left unset (it is NULL until it is configured) the hook reads through
    the NULL pointer when it counts the role groups, whatever the interval
    string is.  An interval string that is empty or all white space is one
    group for the count: with a role string of one group the hook then calls
    [strtok(NULL, ";")] without a string to go on with, and with a role
    string of more groups it raises the count error. *)
Theorem missing_or_blank_strings STATUS_OK old interval_time user_name
    now :
  block_access_checks STATUS_OK old STATUS_OK (Some interval_time) None
    user_name now = Fault NullDeref /\
  forall exclude_roles,
    all_space interval_time = true ->
    block_access_checks STATUS_OK old STATUS_OK (Some interval_time)
      (Some exclude_roles) user_name now =
    if (group_count exclude_roles =? 1)%nat then Fault StrtokNoString
    else Elog E_count_mismatch.
Proof.
  split.
  - unfold block_access_checks. now rewrite Z.eqb_refl.
  - intros exclude_roles Hsp.
    unfold block_access_checks. rewrite Z.eqb_refl.
    rewrite (all_space_no_semicolon _ Hsp), group_count_semicolons.
    rewrite (Nat.eqb_sym (S (count_char ";" exclude_roles)) 1).
    destruct (1 =? S (count_char ";" exclude_roles))%nat; [|reflexivity].
    cbn [negb]. unfold parse_options, interval_items.
    apply trim_empty_iff in Hsp. unfold trimmed in Hsp. now rewrite Hsp.
Qed.

Lemma missing_or_blank_strings_witness :
  block_access_checks 0 cleared 0 (Some "  ") (Some "alice") "alice"
    (monday 9 0) = Fault StrtokNoString.
Proof.
  exact (proj2 (missing_or_blank_strings 0 cleared "  " "alice"
                  (monday 9 0)) "alice" eq_refl).
Defined.

Lemma split_all_one_group d s :
  List.length (split_all d s) = 1%nat -> split_all d s = [s].
Proof.
  destruct (split_all d s) as [|g [|g' gs]] eqn:Hs; try discriminate.
  intros _. now rewrite (split_all_single _ _ _ Hs).
Qed.

(** X22: a role string that is empty or all white space, the way to name no
    role, ends every login with status [STATUS_OK] without a verdict.
    [trim] gives NULL for it, and the last statement of [parse_options]
    gives that to [pfree]: [parse_options] returns no policy, whatever the
    interval string is, so the hook neither allows nor refuses; and with an
    interval string of one group that [parse_interval] accepts, the login
    ends in [pfree(NULL)], whoever the user is and whatever the time is. *)
Theorem blank_role_string interval_time exclude_roles :
  all_space exclude_roles = true ->
  (forall ir n rules,
     parse_options (Some interval_time) (Some exclude_roles) ir n <>
     Ok rules) /\
  (forall STATUS_OK old user_name now,
     block_access_checks STATUS_OK old STATUS_OK (Some interval_time)
       (Some exclude_roles) user_name now <> Allow /\
     block_access_checks STATUS_OK old STATUS_OK (Some interval_time)
       (Some exclude_roles) user_name now <> Deny) /\
  (forall r0,
     group_count interval_time = 1%nat ->
     parse_interval zeroed (trimmed interval_time) = Ok r0 ->
     forall STATUS_OK old user_name now,
       block_access_checks STATUS_OK old STATUS_OK (Some interval_time)
         (Some exclude_roles) user_name now = Fault NullDeref).
Proof.
  intros Hsp.
  assert (Hnull : trim (Some exclude_roles) = None).
  { now apply trim_empty_iff. }
  assert (Hno : forall ir n rules,
            parse_options (Some interval_time) (Some exclude_roles) ir n <>
            Ok rules).
  { intros ir n rules H. unfold parse_options in H.
    apply bind_ok in H as (item1 & _ & H).
    apply bind_ok in H as (ir1 & _ & H).
    apply bind_ok in H as (item2 & _ & H).
    apply bind_ok in H as (ir2 & _ & H).
    apply bind_ok in H as (? & _ & H).
    rewrite Hnull in H. discriminate H. }
  split; [exact Hno|]. split.
  - intros STATUS_OK old user_name now.
    unfold block_access_checks, Allow, Deny. rewrite Z.eqb_refl.
    destruct (negb (S (count_char ";" interval_time) =?
                    S (count_char ";" exclude_roles))%nat);
      [split; discriminate|].
    destruct (parse_options (Some interval_time) (Some exclude_roles)
                (repeat zeroed (S (count_char ";" interval_time)))
                (S (count_char ";" interval_time)))
      as [rules|e|f] eqn:Hparse; cbn [bind].
    + now elim (Hno _ _ _ Hparse).
    + split; [discriminate|].
      intros H; inversion H; subst e.
      now elim (parse_options_error _ _ _ _ _ Hparse).
    + split; discriminate.
  - intros r0 Hone Hr0 STATUS_OK old user_name now.
    unfold block_access_checks. rewrite Z.eqb_refl.
    rewrite (all_space_no_semicolon _ Hsp), <- group_count_semicolons, Hone.
    cbn [Nat.eqb negb repeat]. unfold parse_options.
    assert (Hgroups : split_all ";" interval_time = [interval_time]).
    { apply split_all_one_group. exact Hone. }
    destruct (trim (Some interval_time)) as [t|] eqn:Ht.
    2:{ unfold trimmed in Hr0. rewrite Ht in Hr0. discriminate Hr0. }
    destruct (interval_items_cases _ _ Ht) as [Hclean _].
    rewrite Hone, Hgroups in Hclean. rewrite Hclean.
    2:{ constructor; [|constructor]. unfold trimmed. rewrite Ht.
        discriminate. }
    cbn [bind map parse_each]. rewrite Hr0. cbn [bind].
    assert (Hroles : role_items (Some exclude_roles) 1 = Ok [None]).
    { pose proof (role_items_all exclude_roles) as H.
      rewrite group_count_semicolons,
        (all_space_no_semicolon _ Hsp) in H.
      rewrite H.
      rewrite (split_all_one_group ";" exclude_roles).
      - simpl. unfold trimmed. now rewrite Hnull.
      - change (group_count exclude_roles = 1%nat).
        now rewrite group_count_semicolons,
          (all_space_no_semicolon _ Hsp). }
    rewrite Hroles. cbn [bind parse_each parse_roles pfree].
    unfold trimmed in Ht. rewrite Hnull. reflexivity.
Qed.

Lemma blank_role_string_witness :
  all_space "" = true /\
  block_access_checks 0 cleared 0 (Some "mon - 08:00 - 18:00") (Some "")
    "bob" (monday 9 0) = Fault NullDeref.
Proof.
  split; [reflexivity|].
  exact (proj2 (proj2 (blank_role_string "mon - 08:00 - 18:00" ""
                         eq_refl))
           (rule [1] 8 0 18 0 []) eq_refl eq_refl 0 cleared "bob"
           (monday 9 0)).
Defined.

Lemma free_roles_stale l rs j k :
  nth_error rs k = Some Unset -> l (j + k)%nat = false ->
  exists f, free_roles l rs j = Fault f.
Proof.
  revert j k; induction rs as [|s rs IH]; intros j [|k] Hk Hl;
    simpl in Hk; try discriminate.
  - inversion Hk; subst s. rewrite Nat.add_0_r in Hl. simpl.
    rewrite Hl. now eexists.
  - replace (j + S k)%nat with (S j + k)%nat in Hl by lia.
    destruct s as [|v]; simpl.
    + destruct (l j); [exact (IH _ _ Hk Hl)|now eexists].
    + exact (IH _ _ Hk Hl).
Qed.

Lemma free_roles_null l rs j :
  (forall k, nth_error rs k = Some Unset -> l (j + k)%nat = true) ->
  free_roles l rs j = Ok tt.
Proof.
  revert j; induction rs as [|s rs IH]; intros j H; simpl.
  - reflexivity.
  - assert (IH' : free_roles l rs (S j) = Ok tt).
    { apply IH. intros k Hk.
      replace (S j + k)%nat with (j + S k)%nat by lia. now apply H. }
    destruct s as [|v]; [|exact IH'].
    specialize (H O eq_refl). rewrite Nat.add_0_r in H. now rewrite H.
Qed.

Lemma find_role_unset rs user_name :
  In Unset rs ->
  find_role rs user_name = Ok true \/
  exists f, find_role rs user_name = Fault f.
Proof.
  induction rs as [|[|[role|]] rs IH]; simpl; intros H.
  - destruct H.
  - right. now eexists.
  - destruct H as [H|H]; [discriminate H|].
    destruct (role =? user_name)%string; [now left|now apply IH].
  - right. now eexists.
Qed.

(** X16: a role group with an empty piece (two commas in a row, a comma at
    the front or at the end) gives a rule with an element of the roles array
    that nobody stored into.  What a login that reaches such a rule gets
    depends on the pointer that memory held there.  When it is not NULL
    there is no verdict, whoever the user is and whatever the time is, on a
    rule that lists the day or not, inside its window or outside: the loop
    that frees the roles gives the pointer to [pfree], if the scan for the
    user name did not follow it before.  When it is NULL in every such
    element, the rule lists the day and the time is inside the window, the
    login is allowed. *)
Theorem unset_role_element :
  (forall iv g,
     In EmptyString (split_all "," g) ->
     exists r, parse_roles iv (Some g) = Ok r /\ In Unset (roles r)) /\
  (forall old user_name now pre r post k,
     Forall initialised pre ->
     Forall (fun r' => ~ lists r' (tm_wday now)) pre ->
     nth_error (roles r) k = Some Unset ->
     (left_role_null old (List.length pre) k = false ->
      exists f, verdict old (pre ++ r :: post) user_name now = Fault f) /\
     ((forall k', nth_error (roles r) k' = Some Unset ->
                  left_role_null old (List.length pre) k' = true) ->
      Forall written (wday r) -> lists r (tm_wday now) ->
      minutes (start_time r) <= now_minutes now <= minutes (end_time r) ->
      verdict old (pre ++ r :: post) user_name now = Allow)).
Proof.
  split.
  - intros iv g Hin. eexists. split; [apply parse_roles_slots|].
    cbn [roles]. apply in_or_app. right.
    rewrite strtok_tokens_groups.
    pose proof (filter_drops nonempty _ _ Hin eq_refl) as Hlt.
    destruct (List.length (split_all "," g) -
              List.length (filter nonempty (split_all "," g)))%nat
      eqn:Hk; [lia|]. now left.
  - intros old user_name now pre r post k Hinit Hno Hk.
    unfold verdict. rewrite scan_skip by assumption. cbn [Nat.add].
    split.
    + intros Hl.
      destruct (free_roles_stale (left_role_null old (List.length pre))
                  _ 0%nat _ Hk Hl) as [f Hfree].
      destruct (find_wday (left_wday old (List.length pre)) (wday r)
                  (tm_wday now) 0) as [j|] eqn:Hfind.
      * rewrite (scan_hit _ _ _ _ _ _ _ Hfind). cbn [snd].
        unfold check_window.
        destruct (outside r now); cbn [bind]; [|now exists f].
        destruct (find_role_unset _ user_name (nth_error_In _ _ Hk))
          as [->|[f' ->]]; cbn [bind]; [now exists f|now exists f'].
      * cbn [scan_intervals]. rewrite Hfind, Hfree. now exists f.
    + intros Hnull Hw Hin Hinside.
      destruct (find_wday_present now (left_wday old (List.length pre))
                  _ 0%nat Hw Hin) as [j Hfind].
      rewrite (scan_hit _ _ _ _ _ _ _ Hfind). cbn [snd].
      apply inside_iff in Hinside.
      rewrite (check_window_inside _ _ _ Hinside). cbn [bind].
      now apply free_roles_null.
Qed.

Lemma unset_role_element_witness :
  (exists f,
     verdict dirty
       [rule [6] 8 0 12 0 [];
        {| wday := [Val 1];
           start_time := {| hour := 0; minute := 0 |};
           end_time := {| hour := 23; minute := 59 |};
           roles := [Val (Some "alice"); Unset] |}]
       "alice" (monday 10 0) = Fault f) /\
  verdict cleared
    [rule [6] 8 0 12 0 [];
     {| wday := [Val 1];
        start_time := {| hour := 0; minute := 0 |};
        end_time := {| hour := 23; minute := 59 |};
        roles := [Val (Some "alice"); Unset] |}]
    "alice" (monday 10 0) = Allow.
Proof.
  split.
  - apply (proj2 unset_role_element dirty "alice" (monday 10 0)
             [rule [6] 8 0 12 0 []] _ [] 1%nat).
    + repeat constructor; discriminate.
    + repeat constructor. intros [H|[]]; discriminate H.
    + reflexivity.
    + reflexivity.
  - apply (proj2 unset_role_element cleared "alice" (monday 10 0)
             [rule [6] 8 0 12 0 []] _ [] 1%nat).
    + repeat constructor; discriminate.
    + repeat constructor. intros [H|[]]; discriminate H.
    + reflexivity.
    + reflexivity.
    + repeat constructor; discriminate.
    + left; reflexivity.
    + unfold minutes, now_minutes; simpl; lia.
Defined.

Lemma nth_error_middle (A : Type) (l1 : list A) x l2 k s :
  nth_error (l1 ++ x :: l2) k = Some s ->
  ((k < List.length l1)%nat /\ In s l1) \/
  (k = List.length l1 /\ s = x) \/
  ((List.length l1 < k)%nat /\ In s l2).
Proof.
  revert k; induction l1 as [|y l1 IH]; intros [|k] H; simpl in H.
  - inversion H; subst. right; left. now split.
  - right; right. split; [simpl; lia|exact (nth_error_In _ _ H)].
  - inversion H; subst. left. split; [simpl; lia|now left].
  - destruct (IH _ H) as [[Hlt Hin]|[[-> ->]|[Hlt Hin]]].
    + left. split; [simpl; lia|now right].
    + right; left. now split.
    + right; right. split; [simpl; lia|exact Hin].
Qed.

Lemma nth_error_at_middle (A : Type) (l1 : list A) x l2 :
  nth_error (l1 ++ x :: l2) (List.length l1) = Some x.
Proof. induction l1 as [|y l1 IH]; simpl; [reflexivity|exact IH]. Qed.

(** X17: an element of the week day array that nobody stored into (the week
    day list had an empty position) is compared like the others, with the
    [int] that memory held there.  When no element before it is the current
    week day and that [int] is the current week day, the rule is applied,
    whether its list names the day or not: the pair evaluated is that
    element, and the verdict is Allow inside the window of the rule, and
    outside it Allow for a user among its roles and Deny for another.  When
    that [int] and all that follows in the array are other days, the rule is
    passed over. *)
Theorem unset_week_day_read old user_name now pre r ws1 ws2 :
  Forall initialised pre ->
  Forall (fun r' => ~ lists r' (tm_wday now)) pre ->
  wday r = ws1 ++ Unset :: ws2 ->
  Forall (fun s => exists w, s = Val w /\ w <> tm_wday now) ws1 ->
  Forall is_name (roles r) ->
  (left_wday old (List.length pre) (List.length ws1) = tm_wday now ->
   forall post,
     evaluated old (pre ++ r :: post) user_name now =
     [(List.length pre, List.length ws1)] /\
     (minutes (start_time r) <= now_minutes now <= minutes (end_time r) ->
      verdict old (pre ++ r :: post) user_name now = Allow) /\
     (now_minutes now < minutes (start_time r) \/
      now_minutes now > minutes (end_time r) ->
      (excludes r user_name ->
       verdict old (pre ++ r :: post) user_name now = Allow) /\
      (~ excludes r user_name ->
       verdict old (pre ++ r :: post) user_name now = Deny))) /\
  (left_wday old (List.length pre) (List.length ws1) <> tm_wday now ->
   Forall (fun s => exists w, s = Val w /\ w <> tm_wday now) ws2 ->
   evaluated old (pre ++ [r]) user_name now = [] /\
   verdict old (pre ++ [r]) user_name now = Allow).
Proof.
  intros Hinit Hno Hw Hws1 Hnames.
  assert (Hr : Forall written (roles r)).
  { eapply Forall_impl; [|exact Hnames]. apply is_name_written. }
  assert (Hother : forall ws s,
            Forall (fun s => exists w, s = Val w /\ w <> tm_wday now) ws ->
            In s ws -> forall j,
            read_wday (left_wday old (List.length pre)) j s <> tm_wday now).
  { intros ws s Hws Hin j. rewrite Forall_forall in Hws.
    destruct (Hws _ Hin) as (w & -> & Hne). exact Hne. }
  unfold evaluated, verdict. split.
  - intros Hday post.
    rewrite scan_skip by assumption. cbn [Nat.add].
    assert (Hfind : find_wday (left_wday old (List.length pre)) (wday r)
                      (tm_wday now) 0 = Some (List.length ws1)).
    { rewrite Hw.
      apply (find_wday_first _ _ _ 0%nat (List.length ws1) Unset).
      - apply nth_error_at_middle.
      - exact Hday.
      - intros k' s' Hlt Hk'.
        destruct (nth_error_middle _ _ _ _ _ _ Hk')
          as [[_ Hin]|[[E _]|[Hgt _]]].
        + exact (Hother _ _ Hws1 Hin _).
        + lia.
        + lia. }
    rewrite (scan_hit _ _ _ _ _ _ _ Hfind). cbn [fst snd].
    rewrite (free_roles_written _ _ _ Hr).
    split; [reflexivity|]. split.
    + intros Hinside. apply inside_iff in Hinside.
      now rewrite (check_window_inside _ _ _ Hinside).
    + intros Hout. apply outside_iff in Hout.
      destruct (check_window_outside user_name now r Hout Hnames)
        as [Hyes Hnot].
      split; intros H; [rewrite (Hyes H)|rewrite (Hnot H)]; reflexivity.
  - intros Hday Hws2.
    rewrite scan_skip by assumption. cbn [Nat.add scan_intervals].
    assert (Hfind : find_wday (left_wday old (List.length pre)) (wday r)
                      (tm_wday now) 0 = None).
    { rewrite Hw. apply find_wday_none. intros k s Hk.
      destruct (nth_error_middle _ _ _ _ _ _ Hk)
        as [[_ Hin]|[[-> ->]|[_ Hin]]].
      - exact (Hother _ _ Hws1 Hin _).
      - exact Hday.
      - exact (Hother _ _ Hws2 Hin _). }
    rewrite Hfind, (free_roles_written _ _ _ Hr). now split.
Qed.

(** The week day list [mon,] on a Sunday, in memory that held zeros. *)
Lemma unset_week_day_read_witness :
  parse_interval zeroed (Some "mon, - 08:00 - 18:00") =
  Ok {| wday := [Val 1; Unset];
        start_time := {| hour := 8; minute := 0 |};
        end_time := {| hour := 18; minute := 0 |}; roles := [] |} /\
  evaluated cleared
    [{| wday := [Val 1; Unset];
        start_time := {| hour := 8; minute := 0 |};
        end_time := {| hour := 18; minute := 0 |};
        roles := [Val (Some "carol")] |}] "bob" (sunday 19 0) =
  [(0%nat, 1%nat)] /\
  verdict cleared
    [{| wday := [Val 1; Unset];
        start_time := {| hour := 8; minute := 0 |};
        end_time := {| hour := 18; minute := 0 |};
        roles := [Val (Some "carol")] |}] "bob" (sunday 19 0) = Deny.
Proof.
  split; [reflexivity|].
  destruct (unset_week_day_read cleared "bob" (sunday 19 0) []
              {| wday := [Val 1; Unset];
                 start_time := {| hour := 8; minute := 0 |};
                 end_time := {| hour := 18; minute := 0 |};
                 roles := [Val (Some "carol")] |} [Val 1] [])
    as [H _].
  - constructor.
  - constructor.
  - reflexivity.
  - repeat constructor. exists 1. split; [reflexivity|discriminate].
  - repeat constructor. now exists "carol".
  - destruct (H eq_refl []) as (Hseen & _ & Hout).
    split; [exact Hseen|].
    apply Hout.
    + right. unfold minutes, now_minutes; simpl; lia.
    + intros [E|[]]; discriminate E.
Defined.

Lemma check_window_same r r' user_name now :
  start_time r = start_time r' -> end_time r = end_time r' ->
  roles r = roles r' ->
  check_window r user_name now = check_window r' user_name now.
Proof. unfold check_window, outside. now intros -> -> ->. Qed.

Lemma find_wday_same_days now l ws ws' :
  Forall written ws -> Forall written ws' ->
  (In (Val (tm_wday now)) ws <-> In (Val (tm_wday now)) ws') ->
  (exists j j',
     find_wday l ws (tm_wday now) 0 = Some j /\
     find_wday l ws' (tm_wday now) 0 = Some j') \/
  (find_wday l ws (tm_wday now) 0 = None /\
   find_wday l ws' (tm_wday now) 0 = None).
Proof.
  intros Hw Hw' Hiff.
  destruct (find_wday l ws (tm_wday now) 0) as [j|] eqn:Hj.
  - left. apply (find_wday_listed _ _ _ _ _ Hw), Hiff in Hj.
    destruct (find_wday_present now l _ 0%nat Hw' Hj) as [j' Hj'].
    now exists j, j'.
  - right. split; [reflexivity|].
    apply find_wday_absent; [exact Hw'|].
    intros Hin. apply Hiff in Hin.
    exact (find_wday_not_listed _ _ _ _ Hj Hin).
Qed.

Lemma scan_same_days old user_name now r r' post :
  Forall written (wday r) -> Forall written (wday r') ->
  (forall d, lists r d <-> lists r' d) ->
  start_time r = start_time r' -> end_time r = end_time r' ->
  roles r = roles r' ->
  forall pre i bailout,
    snd (scan_intervals old (pre ++ r :: post) i bailout user_name now) =
    snd (scan_intervals old (pre ++ r' :: post) i bailout user_name now).
Proof.
  intros Hw Hw' Hdays Hst Het Hroles.
  assert (Hdone : forall l i,
            snd (scan_intervals old l i true user_name now) = Ok tt).
  { intros l i. now rewrite scan_bailout. }
  induction pre as [|p pre IH]; intros i bailout.
  - cbn [app scan_intervals]. destruct bailout; [reflexivity|].
    rewrite <- (check_window_same r r' user_name now Hst Het Hroles),
      <- Hroles.
    destruct (find_wday_same_days now (left_wday old i) _ _ Hw Hw'
                (Hdays (tm_wday now)))
      as [(j & j' & -> & ->)|[-> ->]].
    + destruct (check_window r user_name now) as [[]| |]; try reflexivity.
      destruct (free_roles (left_role_null old i) (roles r) 0)
        as [[]| |]; try reflexivity.
      now rewrite !scan_bailout.
    + reflexivity.
  - cbn [app scan_intervals]. destruct bailout; [reflexivity|].
    destruct (find_wday (left_wday old i) (wday p) (tm_wday now) 0)
      as [j|].
    + destruct (check_window p user_name now) as [[]| |]; try reflexivity.
      destruct (free_roles (left_role_null old i) (roles p) 0)
        as [[]| |]; try reflexivity.
      pose proof (Hdone (pre ++ r :: post) (S i)) as H1.
      pose proof (Hdone (pre ++ r' :: post) (S i)) as H2.
      destruct (scan_intervals old (pre ++ r :: post) (S i) true
                  user_name now).
      destruct (scan_intervals old (pre ++ r' :: post) (S i) true
                  user_name now).
      simpl in *. congruence.
    + destruct (free_roles (left_role_null old i) (roles p) 0)
        as [[]| |]; try reflexivity.
      apply IH.
Qed.

(** X18: in which order a rule lists its week days, and how often it lists
    one, makes no difference to the verdict: two rules with the same times
    and roles and the same set of days, all stored, can stand for each other
    anywhere in a policy. *)
Theorem week_day_order_inert old user_name now pre r r' post :
  Forall written (wday r) -> Forall written (wday r') ->
  (forall d, lists r d <-> lists r' d) ->
  start_time r = start_time r' -> end_time r = end_time r' ->
  roles r = roles r' ->
  verdict old (pre ++ r :: post) user_name now =
  verdict old (pre ++ r' :: post) user_name now.
Proof.
  intros Hw Hw' Hdays Hst Het Hroles. unfold verdict.
  now apply scan_same_days.
Qed.

Lemma week_day_order_inert_witness :
  verdict cleared [rule [6] 8 0 12 0 []; rule [1; 3] 8 0 18 0 ["alice"]]
    "bob" (at_time 3 19 0) =
  verdict cleared [rule [6] 8 0 12 0 []; rule [3; 1; 3] 8 0 18 0 ["alice"]]
    "bob" (at_time 3 19 0).
Proof.
  apply (week_day_order_inert cleared "bob" (at_time 3 19 0)
           [rule [6] 8 0 12 0 []] (rule [1; 3] 8 0 18 0 ["alice"])
           (rule [3; 1; 3] 8 0 18 0 ["alice"]) []);
    try reflexivity; try (repeat constructor; discriminate).
  intros d. unfold lists. simpl. tauto.
Defined.

(** ** Further sample inputs *)

Lemma trim_null_iff_witness : trim (Some "  ") = None.
Proof.
  apply (proj2 (trim_null_iff (Some "  "))).
  right. exists "  ". now split.
Defined.

Lemma weekday_round_trip_witness :
  nth_error week_day_names (Z.to_nat 3) = Some "wed".
Proof. exact (proj2 (proj1 (weekday_round_trip "wed" 3) eq_refl)). Defined.

Lemma malformed_interval_iff_witness :
  fails_with (parse_interval zeroed (Some "mon - 08:00")) MalformedInterval.
Proof.
  apply (proj2 (proj1 (malformed_interval_iff zeroed "mon - 08:00"))).
  vm_compute. lia.
Defined.

(** ** Times with more than two parts *)

Lemma strtok_tokens_join2 delims s x p1 p2 rest :
  mem x delims = true ->
  strtok_tokens s delims = p1 :: p2 :: rest ->
  strtok_tokens (p1 ++ String x p2)%string delims = [p1; p2].
Proof.
  intros Hx Htok.
  destruct (strtok_token delims s p1) as [N1 F1]; [rewrite Htok; now left|].
  destruct (strtok_token delims s p2) as [N2 F2];
    [rewrite Htok; right; now left|].
  rewrite strtok_tokens_groups, (split_all_app _ _ _ _ F1 Hx).
  rewrite (strpbrk_none _ _ F2). simpl. now rewrite N1, N2.
Qed.

(** X21: of a time, only the first two pieces between colons are read: what
    follows the minute (seconds, say) is ignored, and so are colons in a
    row; the time is parsed as the hour piece, a colon and the minute piece
    are. *)
Theorem time_extra_parts_ignored b time_str ph pm rest :
  strtok_tokens time_str ":" = ph :: pm :: rest ->
  strtok_tokens (ph ++ ":" ++ pm)%string ":" = [ph; pm] /\
  parse_time b time_str = parse_time b (ph ++ ":" ++ pm)%string.
Proof.
  intros Htok.
  assert (Hjoin : strtok_tokens (ph ++ ":" ++ pm)%string ":" = [ph; pm]).
  { apply (strtok_tokens_join2 ":" time_str ":"%char ph pm rest);
      [reflexivity|exact Htok]. }
  split; [exact Hjoin|].
  unfold parse_time. now rewrite Htok, Hjoin.
Qed.

Lemma time_extra_parts_ignored_witness :
  parse_time Start "08:30:59" = parse_time Start "08:30" /\
  parse_time End "18::05" = parse_time End "18:05".
Proof.
  split.
  - exact (proj2 (time_extra_parts_ignored Start "08:30:59" "08" "30"
                    ["59"] eq_refl)).
  - exact (proj2 (time_extra_parts_ignored End "18::05" "18" "05" []
                    eq_refl)).
Defined.
